(** * Kowai backend: persona pipelines, configuration and the Prefect workflow

    A shallow embedding of
    - [app/ai/agents.py]                (ProviderType, Metadata, Management),
    - [app/ai/nodes/agents/*.py]        (signatures and persona modules),
    - [app/ai/workflows/flows/sequential_processing.py]
                                        (the two tasks and the flow),
    followed by the properties established about them. *)

From Stdlib Require Import QArith Ascii String.
From stdpp Require Import gmap strings list.

Open Scope string_scope.
Open Scope list_scope.

(** ** Python values, exceptions and results *)

Module Py.

(** A Python exception: its class name and its message.  Nothing in the
    embedded code inspects the class of an exception it catches. *)
Record exn := Exn { exn_class : string; exn_msg : string }.

Definition ValueError (msg : string) : exn := Exn "ValueError" msg.
Definition AttributeError (msg : string) : exn := Exn "AttributeError" msg.

(** Outcome of evaluating a Python expression: a value or a raised
    exception. *)
Inductive result (A : Type) : Type :=
| Ok (v : A)
| Raise (e : exn).
Arguments Ok {A} v.
Arguments Raise {A} e.

(** [str.lower()].  A [str] is modelled by a [string] whose characters are
    the code points 0..255; on these Python lowers 'A'..'Z' and the Latin-1
    capitals U+00C0..U+00DE (the multiplication sign U+00D7 excepted) by
    adding 32, and leaves every other character as it is. *)
Definition lower_char (c : ascii) : ascii :=
  let n := N_of_ascii c in
  if ((65 <=? n) && (n <=? 90)
      || (192 <=? n) && (n <=? 222) && negb (n =? 215))%N
  then ascii_of_N (n + 32)
  else c.

Fixpoint lower (s : string) : string :=
  match s with
  | EmptyString => EmptyString
  | String c s' => String (lower_char c) (lower s')
  end.

End Py.
Export Py.

(** ** [agents.py] *)

Module Agents.

Inductive ProviderType :=
| OPENAI | AZURE | AWS | HUGGINGFACE | COHERE | ANTHROPIC
| MISTRAL | GROQ | GROK | GOOGLE | LOCAL | OPENROUTER.

(** [ProviderType.X.value] *)
Definition ProviderType_value (p : ProviderType) : string :=
  match p with
  | OPENAI => "openai"
  | AZURE => "azure"
  | AWS => "aws"
  | HUGGINGFACE => "huggingface"
  | COHERE => "cohere"
  | ANTHROPIC => "anthropic"
  | MISTRAL => "mistral"
  | GROQ => "groq"
  | GROK => "grok"
  | GOOGLE => "google"
  | LOCAL => "local"
  | OPENROUTER => "openrouter"
  end.

(** The values that reach a [Metadata] attribute.  Assignment to a field
    does not validate (the class sets no [validate_assignment]), so an
    attribute can hold any object.  [VMember cls value] is a member of
    another [Enum] class [cls], such as [PersonaType.ANALYST], with its
    [.value]; [VObject cls] is an object of a class [cls] that has no
    [.value] attribute. *)
Inductive pyvalue :=
| VNone
| VStr (s : string)
| VInt (z : Z)
| VFloat (x : Q)
| VProvider (p : ProviderType)
| VMember (cls : string) (value : pyvalue)
| VObject (cls : string).

Definition type_name (v : pyvalue) : string :=
  match v with
  | VNone => "NoneType"
  | VStr _ => "str"
  | VInt _ => "int"
  | VFloat _ => "float"
  | VProvider _ => "ProviderType"
  | VMember cls _ | VObject cls => cls
  end.

Definition VOptStr (o : option string) : pyvalue :=
  match o with
  | Some s => VStr s
  | None => VNone
  end.

(** A [Metadata] instance is the dictionary of its instance attributes
    (its [__dict__]).  What the class adds to attribute access is
    described by [BaseModel] below. *)
Abbreviation Metadata := (gmap string pyvalue).

(** The fields the class declares ([model] is declared twice and is one
    field). *)
Definition Metadata_fields : list string :=
  ["model"; "tokens"; "temperature"; "max_tokens"; "provider";
   "api_key"; "base_url"].

(** [Metadata(model=.., tokens=.., ..)]: the validated constructor; the
    two optional fields default to [None]. *)
Definition Metadata_new (model : string) (tokens : Z) (temperature : Q)
    (max_tokens : Z) (provider : ProviderType)
    (api_key base_url : option string) : Metadata :=
  <["model" := VStr model]>
  (<["tokens" := VInt tokens]>
  (<["temperature" := VFloat temperature]>
  (<["max_tokens" := VInt max_tokens]>
  (<["provider" := VProvider provider]>
  (<["api_key" := VOptStr api_key]>
  (<["base_url" := VOptStr base_url]> ∅)))))).

(** What the class [Metadata] inherits from pydantic's [BaseModel] and
    from [object], as far as [hasattr] and [setattr] show it.  pydantic is
    not part of the repository, so the two components are left open and
    the properties are established for every choice of them:
    - [class_attr key]: attribute lookup finds [key] on the class (a
      method such as [model_dump], a dunder attribute such as [__doc__]);
    - [setattr_inherited m key value]: what [setattr] does for a name that
      is not a declared field, the new instance attributes or the
      exception raised. *)
Record BaseModel := {
  class_attr : string -> bool;
  setattr_inherited : Metadata -> string -> pyvalue -> result Metadata
}.

(** [hasattr(obj, key)]: the name is an instance attribute, or attribute
    lookup finds it on the class. *)
Definition hasattr (cls : BaseModel) (m : Metadata) (key : string) : bool :=
  bool_decide (is_Some (m !! key)) || class_attr cls key.

(** [setattr(obj, key, value)]: a declared field takes the value as it is;
    any other name is handled by what the class inherits. *)
Definition setattr (cls : BaseModel) (m : Metadata) (key : string)
    (value : pyvalue) : result Metadata :=
  if bool_decide (key ∈ Metadata_fields)
  then Ok (<[key := value]> m)
  else setattr_inherited cls m key value.

Definition getattr (m : Metadata) (key : string) : result pyvalue :=
  match m !! key with
  | Some v => Ok v
  | None =>
      Raise (AttributeError
               ("'Metadata' object has no attribute '" +:+ key +:+ "'"))
  end.

(** Objects live in a store and are held by reference: two holders of one
    reference see each other's writes. *)
Definition loc : Type := positive.
Abbreviation store := (gmap loc Metadata).

Definition alloc (m : Metadata) (h : store) : loc * store :=
  let l := fresh (dom h) in (l, <[l := m]> h).

(** A reference held by an object always points into the store; the
    [None] case below is not reached from states built by [alloc]. *)
Definition deref (l : loc) (h : store) : result Metadata :=
  match h !! l with
  | Some m => Ok m
  | None => Raise (Exn "ReferenceError" "")
  end.

Record Management := { metadata : loc }.

Definition Management_init (md : loc) : Management := {| metadata := md |}.

Definition get_metadata (self : Management) : loc := metadata self.

Definition set_metadata (self : Management) (md : loc) : Management :=
  {| metadata := md |}.

(** [update_metadata]: the loop over [kwargs.items()], in insertion order
    (the names of keyword arguments are pairwise distinct).  The
    second component is the store when the call returns or raises. *)
Fixpoint update_metadata (cls : BaseModel) (self : Management)
    (kwargs : list (string * pyvalue)) (h : store)
    : result unit * store :=
  match kwargs with
  | [] => (Ok tt, h)
  | (key, value) :: rest =>
      match deref (metadata self) h with
      | Raise e => (Raise e, h)
      | Ok m =>
          if hasattr cls m key
          then match setattr cls m key value with
               | Ok m' =>
                   update_metadata cls self rest (<[metadata self := m']> h)
               | Raise e => (Raise e, h)
               end
          else (Raise (ValueError ("Invalid metadata field: " +:+ key)), h)
      end
  end.

#[export] Instance result_ret : MRet result := @Ok.
#[export] Instance result_bind : MBind result := fun A B k r =>
  match r with
  | Ok v => k v
  | Raise e => Raise e
  end.

(** [provider.value]: a [ProviderType] member has the attribute, and so
    has any other object that carries one; [None], a [str] and the numbers
    have none. *)
Definition enum_value (v : pyvalue) : result pyvalue :=
  match v with
  | VProvider p => Ok (VStr (ProviderType_value p))
  | VMember _ x => Ok x
  | _ =>
      Raise (AttributeError
               ("'" +:+ type_name v +:+ "' object has no attribute 'value'"))
  end.

(** The arguments [get_lm] passes to [dspy.LM]. *)
Record LM_args := {
  lm_model : pyvalue;
  lm_max_tokens : pyvalue;
  lm_temperature : pyvalue;
  lm_provider : pyvalue;
  lm_api_key : pyvalue;
  lm_base_url : pyvalue
}.

(** [get_lm]: the arguments are evaluated left to right, then the
    constructor [LM_init] of the language-model client, [dspy.LM], is
    called.  dspy is not part of the repository and the conditions its
    constructor puts on the arguments depend on the installed version, so
    the constructor is left open. *)
Definition get_lm {LM : Type} (LM_init : LM_args -> result LM)
    (self : Management) (h : store) : result LM :=
  m ← deref (metadata self) h ;
  model ← getattr m "model" ;
  max_tokens ← getattr m "max_tokens" ;
  temperature ← getattr m "temperature" ;
  provider ← getattr m "provider" ;
  provider_value ← enum_value provider ;
  api_key ← getattr m "api_key" ;
  base_url ← getattr m "base_url" ;
  LM_init {| lm_model := model; lm_max_tokens := max_tokens;
             lm_temperature := temperature; lm_provider := provider_value;
             lm_api_key := api_key; lm_base_url := base_url |}.

End Agents.
Export Agents.

(** ** [nodes/agents/*.py]: signatures and persona modules *)

Module Nodes.

(** A [dspy.Signature] subclass: its [InputField]s and [OutputField]s in
    declaration order. *)
Record Signature := {
  sig_name : string;
  input_fields : list string;
  output_fields : list string
}.

Definition ReasoningNode : Signature :=
  {| sig_name := "ReasoningNode";
     input_fields := ["query"];
     output_fields := ["keywords"; "reasoning"] |}.

Definition EnhanceQueryNode : Signature :=
  {| sig_name := "EnhanceQueryNode";
     input_fields := ["query"; "keywords"; "reasoning"];
     output_fields := ["enhanced_query"] |}.

Definition QANode : Signature :=
  {| sig_name := "QANode";
     input_fields := ["question"; "context"];
     output_fields := ["answer"] |}.

Definition AdvisorNode : Signature :=
  {| sig_name := "AdvisorNode";
     input_fields := ["query"; "keywords"; "reasoning"];
     output_fields := ["advice"] |}.

Definition CreativeNode : Signature :=
  {| sig_name := "CreativeNode";
     input_fields := ["query"; "keywords"; "reasoning"];
     output_fields := ["creative_output"] |}.

Definition MentorNode : Signature :=
  {| sig_name := "MentorNode";
     input_fields := ["query"; "keywords"; "reasoning"];
     output_fields := ["guidance"] |}.

Definition MathNode : Signature :=
  {| sig_name := "MathNode";
     input_fields := ["query"; "reasoning"];
     output_fields := ["result"] |}.

Definition SecurityNode : Signature :=
  {| sig_name := "SecurityNode";
     input_fields := ["query"];
     output_fields := ["security_check"] |}.

(** The dspy module a signature is wrapped in. *)
Inductive module_kind :=
| Predict
| ChainOfThought
| ReAct (tools : list string).

Record Stage := {
  stage_attr : string;          (* the attribute of [self] that holds it *)
  stage_kind : module_kind;
  stage_signature : Signature
}.

(** Fields of the prediction a stage returns: those its signature
    declares; [ChainOfThought] puts a [reasoning] field in front of them,
    and [ReAct] a [trajectory] and a [reasoning] field. *)
Definition stage_outputs (st : Stage) : list string :=
  let declared := output_fields (stage_signature st) in
  match stage_kind st with
  | Predict => declared
  | ChainOfThought =>
      "reasoning" :: filter (fun f => f <> "reasoning") declared
  | ReAct _ =>
      "trajectory" :: "reasoning"
        :: filter (fun f => f <> "reasoning") declared
  end.

Definition stage_inputs (st : Stage) : list string :=
  input_fields (stage_signature st).

(** How [forward] takes the result of a stage call. *)
Inductive call_mode :=
| Awaited                        (* [x = await m.acall(..)], [x = m(..)] *)
| FieldOfResult (f : string)     (* [x = m(..).f] *)
| FieldOfCoroutine (f : string). (* [x = await m.acall(..).f] *)

(** Where a value comes from in [forward]. *)
Inductive source :=
| Query                                  (* the [query] parameter *)
| Const (s : string)                     (* a string literal *)
| Field (call : nat) (field : string)    (* [x.field], [x] bound by a call *)
| Var (call : nat).                      (* the variable bound by a call *)

Inductive arg :=
| Positional (v : source)
| Keyword (name : string) (v : source).

Definition arg_source (a : arg) : source :=
  match a with
  | Positional v | Keyword _ v => v
  end.

(** A statement [x = ..] of [forward] that calls a stage. *)
Record StageCall := {
  callee : Stage;
  arguments : list arg;
  taken : call_mode
}.

(** [forward]: the stage calls in program order, and the value that is
    returned. *)
Record Pipeline := {
  calls : list StageCall;
  returned : source
}.

Definition stages (p : Pipeline) : list Stage := map callee (calls p).

Definition reasoner : Stage :=
  {| stage_attr := "reasoner"; stage_kind := ChainOfThought;
     stage_signature := ReasoningNode |}.

Definition enhance_query : Stage :=
  {| stage_attr := "enhance_query"; stage_kind := ChainOfThought;
     stage_signature := EnhanceQueryNode |}.

Definition get_answer : Stage :=
  {| stage_attr := "get_answer"; stage_kind := Predict;
     stage_signature := QANode |}.

Definition security_checker : Stage :=
  {| stage_attr := "security_checker"; stage_kind := Predict;
     stage_signature := SecurityNode |}.

Definition reasoned_args : list arg :=
  [Keyword "query" Query;
   Keyword "keywords" (Field 0 "keywords");
   Keyword "reasoning" (Field 0 "reasoning")].

(** [BaseAgent] and [BaseAgentSync]: the same statements, with
    [await m.acall(..)] in the first and [m(..)] in the second. *)
Definition base_pipeline : Pipeline :=
  {| calls :=
       [{| callee := reasoner; arguments := [Keyword "query" Query];
           taken := Awaited |};
        {| callee := enhance_query; arguments := reasoned_args;
           taken := Awaited |};
        {| callee := get_answer;
           arguments := [Keyword "question" (Field 1 "enhanced_query");
                         Keyword "context" (Field 0 "reasoning")];
           taken := Awaited |}];
     returned := Field 2 "answer" |}.

(** The field [f] of a call's result, as the synchronous classes take it
    ([m(..).f]) and as the asynchronous ones do ([await m.acall(..).f]). *)
Definition field_taken (sync : bool) (f : string) : call_mode :=
  if sync then FieldOfResult f else FieldOfCoroutine f.

(** A reasoner called with the query as a positional argument, then one
    [Predict] of which the field [ret] is kept in a variable and
    returned. *)
Definition specialist_pipeline (sync : bool) (attr : string)
    (sig : Signature) (args : list arg) (ret : string) : Pipeline :=
  {| calls :=
       [{| callee := reasoner; arguments := [Positional Query];
           taken := Awaited |};
        {| callee := {| stage_attr := attr; stage_kind := Predict;
                        stage_signature := sig |};
           arguments := args; taken := field_taken sync ret |}];
     returned := Var 1 |}.

Definition advisor_pipeline (sync : bool) : Pipeline :=
  specialist_pipeline sync "advisor" AdvisorNode reasoned_args "advice".

Definition creative_pipeline (sync : bool) : Pipeline :=
  specialist_pipeline sync "creative_generator" CreativeNode reasoned_args
    "creative_output".

Definition mentor_pipeline (sync : bool) : Pipeline :=
  specialist_pipeline sync "mentor" MentorNode reasoned_args "guidance".

Definition math_pipeline (sync : bool) : Pipeline :=
  specialist_pipeline sync "solve" MathNode
    [Keyword "query" Query; Keyword "reasoning" (Field 0 "reasoning")]
    "result".

(** [Researcher] and [ResearcherSync] *)
Definition researcher_pipeline (sync : bool) : Pipeline :=
  {| calls :=
       [{| callee := reasoner; arguments := [Positional Query];
           taken := Awaited |};
        {| callee := enhance_query; arguments := reasoned_args;
           taken := field_taken sync "enhanced_query" |};
        {| callee := {| stage_attr := "researcher";
                        stage_kind := ReAct ["search_tool"];
                        stage_signature := QANode |};
           arguments :=
             [Keyword "question" (Var 1);
              Keyword "context"
                (Const "Search for the answer. There's no context available yet.")];
           taken := field_taken sync "answer" |}];
     returned := Var 2 |}.

Definition security_pipeline : Pipeline :=
  {| calls :=
       [{| callee := security_checker; arguments := [Keyword "query" Query];
           taken := Awaited |}];
     returned := Field 0 "security_check" |}.

(** The agent classes of the package. *)
Inductive AgentClass :=
| BaseAgent | BaseAgentSync
| AdvisorAgent | AdvisorAgentSync
| CreativeAgent | CreativeAgentSync
| MentorAgent | MentorAgentSync
| MathAgent | MathAgentSync
| Researcher | ResearcherSync
| SecurityAgent.

Definition all_agent_classes : list AgentClass :=
  [BaseAgent; BaseAgentSync; AdvisorAgent; AdvisorAgentSync;
   CreativeAgent; CreativeAgentSync; MentorAgent; MentorAgentSync;
   MathAgent; MathAgentSync; Researcher; ResearcherSync; SecurityAgent].

Definition pipeline_of (c : AgentClass) : Pipeline :=
  match c with
  | BaseAgent | BaseAgentSync => base_pipeline
  | AdvisorAgent => advisor_pipeline false
  | AdvisorAgentSync => advisor_pipeline true
  | CreativeAgent => creative_pipeline false
  | CreativeAgentSync => creative_pipeline true
  | MentorAgent => mentor_pipeline false
  | MentorAgentSync => mentor_pipeline true
  | MathAgent => math_pipeline false
  | MathAgentSync => math_pipeline true
  | Researcher => researcher_pipeline false
  | ResearcherSync => researcher_pipeline true
  | SecurityAgent => security_pipeline
  end.

(** [self.metadata = metadata] is written by every class but the mentor
    and math ones. *)
Definition keeps_metadata (c : AgentClass) : bool :=
  match c with
  | MentorAgent | MentorAgentSync | MathAgent | MathAgentSync => false
  | _ => true
  end.

(** An instance after [__init__]. *)
Record Agent (LM : Type) := {
  agent_class : AgentClass;
  agent_metadata : option loc;
  agent_lm : LM;
  agent_stages : list Stage
}.
Arguments agent_class {LM}.
Arguments agent_metadata {LM}.
Arguments agent_lm {LM}.
Arguments agent_stages {LM}.

(** [__init__(self, metadata)]: bind the client through a fresh
    [Management], then build the dspy modules.  Building a module from a
    signature class does not compare it with any other signature. *)
Definition Agent_init {LM : Type} (LM_init : LM_args -> result LM)
    (c : AgentClass) (md : loc) (h : store) : result (Agent LM) :=
  lm ← get_lm LM_init (Management_init md) h ;
  mret {| agent_class := c;
          agent_metadata := if keeps_metadata c then Some md else None;
          agent_lm := lm;
          agent_stages := stages (pipeline_of c) |}.

(** The condition "the outputs of each stage contain the input names of
    the next stage", as a check on a stage sequence. *)
Fixpoint outputs_feed_next (sts : list Stage) : bool :=
  match sts with
  | st :: ((st' :: _) as rest) =>
      forallb (fun f => bool_decide (f ∈ stage_outputs st))
              (stage_inputs st')
      && outputs_feed_next rest
  | _ => true
  end.

End Nodes.
Export Nodes.

(** ** The Prefect runtime, as far as the flow module uses it *)

Module Prefect.

(** What a run does that can be observed from outside. *)
Inductive event :=
| TaskRun (task : string) (run_count : nat)  (* the engine starts an attempt *)
| Info (msg : string)                        (* [logger.info] *)
| AgentCall (n : nat) (msg : string)         (* [await agent(msg)], n-th call *)
| Sleep (seconds : nat).                     (* the engine waits before a retry *)

(** One execution of a piece of code: its outcome, the number of calls the
    agent has received afterwards, and the events it emitted, oldest
    first.  A raised exception keeps the events emitted before it. *)
Record run (A : Type) := Run {
  outcome : result A;
  calls_after : nat;
  events : list event
}.
Arguments Run {A}.
Arguments outcome {A}.
Arguments calls_after {A}.
Arguments events {A}.

(** Code is a function of the number of calls the agent has already
    received. *)
Definition M (A : Type) : Type := nat -> run A.

Definition ret {A} (v : A) : M A := fun n => Run (Ok v) n [].
Definition raise {A} (e : exn) : M A := fun n => Run (Raise e) n [].
Definition emit (ev : event) : M unit := fun n => Run (Ok tt) n [ev].

Definition bind {A B} (m : M A) (k : A -> M B) : M B :=
  fun n =>
    let r := m n in
    match outcome r with
    | Ok v =>
        let r' := k v (calls_after r) in
        Run (outcome r') (calls_after r') (events r ++ events r')
    | Raise e => Run (Raise e) (calls_after r) (events r)
    end.

(** [try: m  except Exception as e: h e] *)
Definition try_except {A} (m : M A) (h : exn -> M A) : M A :=
  fun n =>
    let r := m n in
    match outcome r with
    | Ok v => r
    | Raise e =>
        let r' := h e (calls_after r) in
        Run (outcome r') (calls_after r') (events r ++ events r')
    end.

#[export] Instance M_ret : MRet M := @ret.
#[export] Instance M_bind : MBind M := fun A B k m => bind m k.

(** A [dspy.Module] used as [await agent(msg)]: the call either returns a
    string or raises.  The module talks to a language model, so successive
    calls on the same message need not agree: the outcome is a function of
    the number of calls made before. *)
Inductive agent_outcome :=
| Returns (v : string)
| Raises (e : exn).

Definition agent : Type := nat -> string -> agent_outcome.

Definition call_agent (a : agent) (msg : string) : M string :=
  fun n =>
    match a n msg with
    | Returns v => Run (Ok v) (S n) [AgentCall n msg]
    | Raises e => Run (Raise e) (S n) [AgentCall n msg]
    end.

(** [@task(retries=r, retry_delay_seconds=d)].  Prefect runs the decorated
    function once and, while the run raised and retries are left, waits [d]
    seconds and runs it again; [retries] counts the re-runs, so the
    function is run at most [r + 1] times.  No [retry_condition_fn] is
    given, so every exception is retried.  When the last run raises, the
    task is failed and the exception reaches the code that awaited the
    task. *)
Fixpoint task_engine {A} (name : string) (retry_delay_seconds : nat)
    (fn : M A) (retries : nat) (run_count : nat) : M A :=
  match retries with
  | O => emit (TaskRun name run_count) ;; fn
  | S k =>
      try_except (emit (TaskRun name run_count) ;; fn)
        (fun _ => emit (Sleep retry_delay_seconds) ;;
                  task_engine name retry_delay_seconds fn k (S run_count))
  end.

Definition task {A} (retries retry_delay_seconds : nat) (name : string)
    (fn : M A) : M A :=
  task_engine name retry_delay_seconds fn retries 1.

(** Final state of a flow run.  [@flow] is given no [retries]: the flow
    function runs once, and an exception leaving it fails the run. *)
Inductive flow_state (A : Type) :=
| Completed (v : A)
| Failed (e : exn).
Arguments Completed {A} v.
Arguments Failed {A} e.

Definition flow_state_of {A} (o : result A) : flow_state A :=
  match o with
  | Ok v => Completed v
  | Raise e => Failed e
  end.

(** Observations on the events of a run. *)
Definition is_task_run (name : string) (ev : event) : bool :=
  match ev with
  | TaskRun t _ => String.eqb t name
  | _ => false
  end.

Definition attempts (name : string) (evs : list event) : nat :=
  length (filter (fun ev => is_task_run name ev = true) evs).

Definition sleeps (evs : list event) : list nat :=
  omap (fun ev => match ev with Sleep s => Some s | _ => None end) evs.

Definition agent_calls (evs : list event) : list nat :=
  omap (fun ev => match ev with AgentCall n _ => Some n | _ => None end) evs.

End Prefect.
Export Prefect.

(** ** [sequential_processing.py] *)

Module Flows.

Definition security_check_fn (a : agent) (msg : string) : M bool :=
  emit (Info "Doing security check...") ;;
  result ← call_agent a msg ;
  mret (String.eqb (lower result) "passed").

Definition security_check (a : agent) (msg : string) : M bool :=
  task 3 5 "security_check" (security_check_fn a msg).

Definition get_response_fn (a : agent) (msg : string) : M string :=
  emit (Info "Getting response...") ;;
  result ← try_except (call_agent a msg) (fun e => raise e) ;
  mret result.

Definition get_response (a : agent) (msg : string) : M string :=
  task 3 5 "get_response" (get_response_fn a msg).

(** [@flow(task_runner=ConcurrentTaskRunner(), timeout_seconds=300)].
    The deadline is enforced by the Prefect runtime on the wall clock;
    runs are described here as long as they stay within it. *)
Definition timeout_seconds : nat := 300.

Definition sequential_chat_processing_flow_fn (a : agent) (message : string)
    : M string :=
  emit (Info "Starting sequential chat processing flow") ;;
  try_except
    (security_passed ← security_check a message ;
     (if negb security_passed
      then raise (ValueError "Security check failed")
      else mret tt) ;;
     response ← get_response a message ;
     mret response)
    (fun e => raise e).

(** A run of the flow that starts when the agent has received [n] calls. *)
Definition sequential_chat_processing_flow (a : agent) (message : string)
    (n : nat) : flow_state string * list event :=
  let r := sequential_chat_processing_flow_fn a message n in
  (flow_state_of (outcome r), events r).

End Flows.
Export Flows.


(** ** [forward] of the agent classes *)

Module Forward.

(** The value of a field: a string, or a list of strings ([keywords]). *)
Inductive fvalue :=
| FStr (s : string)
| FList (l : list string).

(** A [dspy.Prediction]: its fields by name. *)
Abbreviation Prediction := (gmap string fvalue).

(** An argument as the called module receives it: positional ([None]) or
    under a keyword. *)
Definition bound_arg : Type := option string * fvalue.

(** The dspy modules behind the stages.  A call is answered by a language
    model, so its outcome is given by an oracle: a function of the client
    in force ([Some lm] inside [with dspy.context(lm=lm)], [None] for the
    process-wide default), of the number of stage calls made before, of
    the stage and of the arguments.  The arguments reach the module as
    they are written, positional or by keyword; what a module does with a
    positional argument is the oracle's answer too. *)
Definition stage_oracle (LM : Type) : Type :=
  option LM -> nat -> Stage -> list bound_arg -> result Prediction.

(** How each stage call of a class takes its result. *)
Definition call_modes (c : AgentClass) : list call_mode :=
  map taken (calls (pipeline_of c)).

(** The classes whose [forward] runs inside
    [with dspy.context(lm=self.lm)]. *)
Definition uses_own_lm (c : AgentClass) : bool :=
  match c with
  | BaseAgent | SecurityAgent => true
  | _ => false
  end.

(** Reading [.f] of the result of an earlier call. *)
Definition read_field (pred : Prediction) (f : string) : result fvalue :=
  match pred !! f with
  | Some v => Ok v
  | None =>
      Raise (AttributeError
               ("'Prediction' object has no attribute '" +:+ f +:+ "'"))
  end.

(** What a variable of [forward] is bound to: the prediction a call
    returned, or a value read from it. *)
Inductive binding :=
| Pred (pred : Prediction)
| Value (v : fvalue).

(** The tables above read a field from a variable that holds a prediction
    and pass on a variable that holds a value; the other two combinations
    and a variable not yet bound do not occur in them. *)
Definition eval_source (query : string) (env : list binding)
    (v : source) : result fvalue :=
  match v with
  | Query => Ok (FStr query)
  | Const s => Ok (FStr s)
  | Field j f =>
      match env !! j with
      | Some (Pred pred) => read_field pred f
      | Some (Value _) =>
          Raise (AttributeError
                   ("'str' object has no attribute '" +:+ f +:+ "'"))
      | None => Raise (Exn "NameError" "")
      end
  | Var j =>
      match env !! j with
      | Some (Value x) => Ok x
      | Some (Pred _) => Raise (Exn "TypeError" "")
      | None => Raise (Exn "NameError" "")
      end
  end.

(** The arguments of a call, evaluated left to right. *)
Fixpoint eval_args (query : string) (env : list binding)
    (args : list arg) : result (list bound_arg) :=
  match args with
  | [] => Ok []
  | a :: rest =>
      v ← eval_source query env (arg_source a) ;
      vs ← eval_args query env rest ;
      mret ((match a with
             | Positional _ => None
             | Keyword name _ => Some name
             end, v) :: vs)
  end.

(** The state of a run of [forward]: what the calls made so far have
    bound, the number of stage calls the oracle has answered, and the
    stages invoked, oldest first. *)
Record fwd_state := {
  fwd_env : list binding;
  fwd_count : nat;
  fwd_invoked : list Stage
}.

(** The statements of [forward] that call a stage, in program order.  A
    call whose attribute is taken from the coroutine evaluates its
    arguments and creates the coroutine, which is never run, and raises;
    the other calls invoke the stage, and bind the prediction or the field
    read from it. *)
Fixpoint run_calls {LM : Type} (oracle : stage_oracle LM) (ctx : option LM)
    (query : string) (cs : list StageCall) (st : fwd_state)
    : result unit * fwd_state :=
  match cs with
  | [] => (Ok tt, st)
  | c :: rest =>
      match eval_args query (fwd_env st) (arguments c) with
      | Raise e => (Raise e, st)
      | Ok vs =>
          match taken c with
          | FieldOfCoroutine f =>
              (Raise (AttributeError
                        ("'coroutine' object has no attribute '"
                           +:+ f +:+ "'")), st)
          | mode =>
              let st' := {| fwd_env := fwd_env st;
                            fwd_count := S (fwd_count st);
                            fwd_invoked := fwd_invoked st ++ [callee c] |} in
              match oracle ctx (fwd_count st) (callee c) vs with
              | Raise e => (Raise e, st')
              | Ok pred =>
                  match
                    match mode with
                    | FieldOfResult f => v ← read_field pred f ; mret (Value v)
                    | _ => Ok (Pred pred)
                    end
                  with
                  | Raise e => (Raise e, st')
                  | Ok b =>
                      run_calls oracle ctx query rest
                        {| fwd_env := fwd_env st ++ [b];
                           fwd_count := S (fwd_count st);
                           fwd_invoked := fwd_invoked st ++ [callee c] |}
                  end
              end
          end
      end
  end.

(** [forward(self, query)] of an agent, started when the oracle has
    answered [n] stage calls: the value returned or the exception raised,
    and the stages invoked. *)
Definition forward {LM : Type} (oracle : stage_oracle LM) (ag : Agent LM)
    (query : string) (n : nat) : result fvalue * list Stage :=
  let c := agent_class ag in
  let ctx := if uses_own_lm c then Some (agent_lm ag) else None in
  let p := pipeline_of c in
  let '(r, st) :=
    run_calls oracle ctx query (calls p)
      {| fwd_env := []; fwd_count := n; fwd_invoked := [] |} in
  match r with
  | Raise e => (Raise e, fwd_invoked st)
  | Ok _ => (eval_source query (fwd_env st) (returned p), fwd_invoked st)
  end.

End Forward.
Export Forward.

(** ** [api/middleware]: security headers and the compression test *)

Module Middleware.

(** The headers of a Starlette response ([MutableHeaders]): the list of
    (name, value) pairs in insertion order.  Names are kept in lower case,
    and every operation lower-cases the name it is given. *)
Definition raw_headers : Type := list (string * string).

Definition named (k : string) (kv : string * string) : bool :=
  String.eqb kv.1 k.

(** [key in headers] *)
Definition header_contains (key : string) (h : raw_headers) : bool :=
  existsb (named (lower key)) h.

(** [headers.get(key, default)]: the first value under the name. *)
Definition header_get (key default : string) (h : raw_headers) : string :=
  match List.find (named (lower key)) h with
  | Some kv => kv.2
  | None => default
  end.

(** The first pair under the name [k] takes the value [v]; the later pairs
    under that name are dropped. *)
Fixpoint replace_first (k v : string) (h : raw_headers) : raw_headers :=
  match h with
  | [] => []
  | kv :: rest =>
      if named k kv
      then (k, v) :: List.filter (fun kv' => negb (named k kv')) rest
      else kv :: replace_first k v rest
  end.

(** [headers[key] = value]: set the header, removing duplicate entries;
    a new name is appended. *)
Definition header_set (key value : string) (h : raw_headers) : raw_headers :=
  if header_contains key h
  then replace_first (lower key) value h
  else h ++ [(lower key, value)].

(** [del headers[key]]: every pair under the name goes. *)
Definition header_del (key : string) (h : raw_headers) : raw_headers :=
  List.filter (fun kv => negb (named (lower key) kv)) h.

Record Response := {
  status_code : nat;
  headers : raw_headers;
  body : string
}.

(** The assignments of [SecurityMiddleware.dispatch], in program order. *)
Definition security_headers : list (string * string) :=
  [("X-Content-Type-Options", "nosniff");
   ("X-Frame-Options", "DENY");
   ("X-XSS-Protection", "1; mode=block");
   ("Strict-Transport-Security", "max-age=31536000; includeSubDomains");
   ("Referrer-Policy", "strict-origin-when-cross-origin");
   ("Content-Security-Policy",
    "default-src 'self'; script-src 'self' 'unsafe-inline' 'unsafe-eval'; style-src 'self' 'unsafe-inline'; img-src 'self' data: https:; font-src 'self' data:; connect-src 'self' wss: https:; frame-ancestors 'none';")].

(** What [dispatch] does to the headers of the response it got. *)
Definition secure_headers (h : raw_headers) : raw_headers :=
  let h := foldl (fun h kv => header_set kv.1 kv.2 h) h security_headers in
  if header_contains "server" h then header_del "server" h else h.

(** [SecurityMiddleware.dispatch]: [call_next] answers the request with a
    response or raises; the response is changed in place and returned. *)
Definition SecurityMiddleware_dispatch {Request : Type}
    (call_next : Request -> result Response) (request : Request)
    : result Response :=
  response ← call_next request ;
  mret {| status_code := status_code response;
          headers := secure_headers (headers response);
          body := body response |}.

(** [str.isspace()] on one character (code points 0..255). *)
Definition isspace (c : ascii) : bool :=
  let n := N_of_ascii c in
  ((9 <=? n) && (n <=? 13) || (28 <=? n) && (n <=? 32)
   || (n =? 133) || (n =? 160))%N.

Fixpoint lstrip (s : string) : string :=
  match s with
  | EmptyString => EmptyString
  | String c s' => if isspace c then lstrip s' else s
  end.

Fixpoint rstrip (s : string) : string :=
  match s with
  | EmptyString => EmptyString
  | String c s' =>
      match rstrip s' with
      | EmptyString => if isspace c then EmptyString else String c EmptyString
      | r => String c r
      end
  end.

(** [str.strip()] *)
Definition strip (s : string) : string := rstrip (lstrip s).

(** [s.split(sep)[0]] for a one-character separator: the text before its
    first occurrence, all of [s] when there is none. *)
Fixpoint before (sep : ascii) (s : string) : string :=
  match s with
  | EmptyString => EmptyString
  | String c s' =>
      if Ascii.eqb c sep then EmptyString else String c (before sep s')
  end.

(** [self.compressible_types] *)
Definition compressible_types : list string :=
  ["application/json"; "application/javascript"; "application/xml";
   "text/html"; "text/css"; "text/javascript"; "text/plain"; "text/xml";
   "application/rss+xml"; "application/atom+xml"; "image/svg+xml"].

(** [CompressionMiddleware._should_compress] *)
Definition should_compress (response : Response) : bool :=
  if negb (String.eqb (header_get "content-encoding" "" (headers response)) "")
  then false
  else
    let content_type :=
      strip (before ";" (header_get "content-type" "" (headers response))) in
    bool_decide (content_type ∈ compressible_types).

End Middleware.
Export Middleware.

(** ** Notions used in the statements *)

(** An instance of the class [Metadata]: exactly the declared fields are
    set. *)
Definition Metadata_instance (m : Metadata) : Prop :=
  forall k, is_Some (m !! k) <-> k ∈ Metadata_fields.

(** The attributes after the assignments of [kwargs], first to last. *)
Definition apply_kwargs (m : Metadata) (kwargs : list (string * pyvalue))
    : Metadata :=
  foldl (fun m kv => <[kv.1 := kv.2]> m) m kwargs.

(** A task body in the sense of the two tasks of the flow module: one agent
    call per run, and no event of the engine's own. *)
Record task_body {A} (fn : M A) : Prop := {
  body_calls : forall n, calls_after (fn n) = S n;
  body_attempts : forall name n, attempts name (events (fn n)) = 0;
  body_sleeps : forall n, sleeps (events (fn n)) = []
}.

(** The value has a [.value] attribute. *)
Definition has_value_attr (v : pyvalue) : bool :=
  match v with
  | VProvider _ | VMember _ _ => true
  | _ => false
  end.

(** The arguments [get_lm] hands to the client's constructor when the
    attributes are [m] and the provider attribute holds the member [p]. *)
Definition lm_args_of (m : Metadata) (p : ProviderType) : LM_args :=
  {| lm_model := default VNone (m !! "model");
     lm_max_tokens := default VNone (m !! "max_tokens");
     lm_temperature := default VNone (m !! "temperature");
     lm_provider := VStr (ProviderType_value p);
     lm_api_key := default VNone (m !! "api_key");
     lm_base_url := default VNone (m !! "base_url") |}.

(** The character [c] is the lower-case letter [l] or its capital. *)
Definition either_case (l : ascii) (c : ascii) : Prop :=
  c = l \/ c = ascii_of_N (N_of_ascii l - 32).

(** A stage oracle that answers every call whose arguments are all given
    by keyword, with a prediction in which the output fields declared by
    the stage's signature are set.  Nothing is asked of a call that has a
    positional argument. *)
Definition answers_keyword_calls {LM : Type} (oracle : stage_oracle LM)
    : Prop :=
  forall ctx k st args,
    Forall (fun a : bound_arg => is_Some a.1) args ->
    exists pred, oracle ctx k st args = Ok pred
      /\ forall f, f ∈ output_fields (stage_signature st) ->
                   is_Some (pred !! f).

(** The classes none of whose stage calls takes its attribute from the
    coroutine: their calls are awaited, or plain calls. *)
Definition awaits_results (c : AgentClass) : bool :=
  forallb (fun m => match m with FieldOfCoroutine _ => false | _ => true end)
          (call_modes c).

(** The values a response carries under the header name [k], in order. *)
Definition header_values (k : string) (h : raw_headers) : list string :=
  map snd (List.filter (named k) h).

(** Every character of [s] is white space. *)
Fixpoint all_space (s : string) : bool :=
  match s with
  | EmptyString => true
  | String c s' => isspace c && all_space s'
  end.

(** The character [c] occurs in [s]. *)
Fixpoint has_char (c : ascii) (s : string) : bool :=
  match s with
  | EmptyString => false
  | String c' s' => Ascii.eqb c' c || has_char c s'
  end.

(** The header names [SecurityMiddleware] writes or deletes. *)
Definition managed_headers : list string :=
  map (fun kv => lower kv.1) security_headers ++ ["server"].

(** ** Sample inputs *)

Definition always (o : agent_outcome) : agent := fun _ _ => o.

(** An agent that raises [e] on its first [k] calls and answers [v] from
    then on. *)
Definition raises_then_returns (k : nat) (e : exn) (v : string) : agent :=
  fun i _ => if (i <? k)%nat then Raises e else Returns v.

Definition fatal : exn := Exn "FatalInferenceError" "invalid api key".
Definition transient : exn := Exn "TransientInferenceError" "timed out".

(** A stage oracle that answers a call made with keyword arguments only,
    with every declared output field set (to its own name), and raises a
    TypeError for a call that has a positional argument. *)
Definition keyword_oracle {LM : Type} : stage_oracle LM :=
  fun _ _ st args =>
    if forallb (fun a : bound_arg => bool_decide (is_Some a.1)) args
    then Ok (list_to_map
               (map (fun f => (f, FStr f))
                    (output_fields (stage_signature st))))
    else Raise (Exn "TypeError" "positional arguments are not allowed").

(** An agent of class [c], with client [lm], as its constructor leaves
    it. *)
Definition agent_with_client (c : AgentClass) (lm : LM_args)
    : Agent LM_args :=
  {| agent_class := c;
     agent_metadata := None;
     agent_lm := lm;
     agent_stages := stages (pipeline_of c) |}.

Definition sample_client (model : string) : LM_args :=
  {| lm_model := VStr model; lm_max_tokens := VInt 1024;
     lm_temperature := VFloat (7 # 10); lm_provider := VStr "openai";
     lm_api_key := VNone; lm_base_url := VNone |}.

(** A client constructor that accepts its arguments and keeps them. *)
Definition storing_client (args : LM_args) : result LM_args := Ok args.

(** The agent that [Agent_init storing_client c md] returns on the sample
    store. *)
Definition sample_agent_at (c : AgentClass) (md : loc) : Agent LM_args :=
  {| agent_class := c;
     agent_metadata := if keeps_metadata c then Some md else None;
     agent_lm := sample_client "openai/gpt-4o-mini";
     agent_stages := stages (pipeline_of c) |}.

Definition sample_agent (c : AgentClass) : Agent LM_args :=
  agent_with_client c (sample_client "openai/gpt-4o-mini").

(** [PersonaType.ANALYST], of [nodes/agents/base.py]. *)
Definition PersonaType_ANALYST : pyvalue :=
  VMember "PersonaType" (VStr "analyst").

(** [s] between double quotes. *)
Definition quoted (s : string) : string :=
  String "034"%char (s +:+ String "034"%char "").

(** An inherited part for the samples.  Attribute lookup finds the four
    names on the class; assignment to a name with a leading underscore
    sets the instance attribute, assignment to another name that is not a
    field raises pydantic's ValueError. *)
Definition sample_BaseModel : BaseModel :=
  {| class_attr := fun key =>
       bool_decide (key ∈ ["__doc__"; "__module__"; "model_dump";
                           "model_copy"]);
     setattr_inherited := fun m key value =>
       match key with
       | String "_"%char _ => Ok (<[key := value]> m)
       | _ =>
           Raise (ValueError (quoted "Metadata" +:+ " object has no field "
                                +:+ quoted key))
       end |}.

Definition sample_metadata : Metadata :=
  Metadata_new "openai/gpt-4o-mini" 0 (7 # 10) 1024 OPENAI None None.

Definition sample_loc : loc := (alloc sample_metadata ∅).1.
Definition sample_store : store := (alloc sample_metadata ∅).2.

(** * Properties *)

(** ** The task bodies and the retry engine *)

Module Retry.

Lemma security_check_fn_run a msg n :
  security_check_fn a msg n =
  match a n msg with
  | Returns v =>
      Run (Ok (String.eqb (lower v) "passed")) (S n)
          [Info "Doing security check..."; AgentCall n msg]
  | Raises e =>
      Run (Raise e) (S n) [Info "Doing security check..."; AgentCall n msg]
  end.
Proof.
  unfold security_check_fn, mbind, M_bind, bind, call_agent, emit, mret, M_ret, ret.
  cbn. destruct (a n msg); reflexivity.
Qed.

Lemma get_response_fn_run a msg n :
  get_response_fn a msg n =
  match a n msg with
  | Returns v =>
      Run (Ok v) (S n) [Info "Getting response..."; AgentCall n msg]
  | Raises e =>
      Run (Raise e) (S n) [Info "Getting response..."; AgentCall n msg]
  end.
Proof.
  unfold get_response_fn, mbind, M_bind, bind, try_except, call_agent, emit,
    raise, mret, M_ret, ret.
  cbn. destruct (a n msg); cbn; rewrite ?app_nil_r; reflexivity.
Qed.

Lemma attempts_app name l1 l2 :
  attempts name (l1 ++ l2) = attempts name l1 + attempts name l2.
Proof. unfold attempts. rewrite filter_app, length_app. reflexivity. Qed.

Lemma sleeps_app l1 l2 : sleeps (l1 ++ l2) = sleeps l1 ++ sleeps l2.
Proof. apply omap_app. Qed.

Lemma security_check_fn_body a msg : task_body (security_check_fn a msg).
Proof.
  split; intros; rewrite security_check_fn_run; destruct (a n msg); reflexivity.
Qed.

Lemma get_response_fn_body a msg : task_body (get_response_fn a msg).
Proof.
  split; intros; rewrite get_response_fn_run; destruct (a n msg); reflexivity.
Qed.

Section Engine.
Context {A : Type} (name : string) (d : nat) (fn : M A).
Hypothesis Hbody : task_body fn.

(** One unfolding of the engine. *)
Lemma task_engine_step r c n :
  task_engine name d fn r c n =
  match outcome (fn n), r with
  | Raise _, S k =>
      let R := task_engine name d fn k (S c) (calls_after (fn n)) in
      Run (outcome R) (calls_after R)
          ((TaskRun name c :: events (fn n)) ++ Sleep d :: events R)
  | _, _ =>
      Run (outcome (fn n)) (calls_after (fn n))
          (TaskRun name c :: events (fn n))
  end.
Proof.
  destruct r as [|k]; cbn [task_engine];
    unfold try_except, mbind, M_bind, bind, emit; cbn.
  - destruct (fn n) as [[v|e] m evs]; reflexivity.
  - destruct (fn n) as [[v|e] m evs]; cbn; [reflexivity|].
    destruct (task_engine name d fn k (S c) m) as [o m' evs']; reflexivity.
Qed.

Lemma attempts_TaskRun c evs :
  attempts name (TaskRun name c :: evs) = S (attempts name evs).
Proof.
  unfold attempts. rewrite filter_cons_True; [reflexivity|].
  cbn. apply String.eqb_refl.
Qed.

Lemma attempts_Sleep evs :
  attempts name (Sleep d :: evs) = attempts name evs.
Proof.
  unfold attempts. rewrite filter_cons_False; [reflexivity|].
  cbn. discriminate.
Qed.

Lemma sleeps_TaskRun c evs : sleeps (TaskRun name c :: evs) = sleeps evs.
Proof. reflexivity. Qed.

Lemma sleeps_Sleep evs : sleeps (Sleep d :: evs) = d :: sleeps evs.
Proof. reflexivity. Qed.

(** Closes the goals about a run of the engine that ends with the
    first run of the body. *)
Ltac single_run :=
  cbn [outcome calls_after events];
  rewrite ?body_calls, ?attempts_TaskRun, ?sleeps_TaskRun,
    ?body_attempts, ?body_sleeps by done;
  done.

(** Rewrites the observations of a run that retried once and went on. *)
Ltac retried_run :=
  cbn [outcome calls_after events];
  rewrite ?attempts_app, ?sleeps_app, ?attempts_TaskRun, ?sleeps_TaskRun,
    ?attempts_Sleep, ?sleeps_Sleep, ?body_attempts, ?body_sleeps by done.

(** The body succeeds at its (k+1)-th run, k <= retries: the task
    completes with that value after k+1 runs and k waits of [d]. *)
Lemma task_engine_succeeds r : forall c n k v,
  k <= r ->
  (forall i, i < k -> exists e, outcome (fn (n + i)) = Raise e) ->
  outcome (fn (n + k)) = Ok v ->
  let R := task_engine name d fn r c n in
  outcome R = Ok v /\ calls_after R = S (n + k)
  /\ attempts name (events R) = S k /\ sleeps (events R) = replicate k d.
Proof.
  induction r as [|r IH]; intros c n k v Hk Hraise Hok R; subst R.
  - assert (k = 0) as -> by lia. rewrite Nat.add_0_r in *.
    rewrite task_engine_step, Hok. single_run.
  - destruct k as [|k].
    + rewrite Nat.add_0_r in *. rewrite task_engine_step, Hok. single_run.
    + destruct (Hraise 0) as [e He]; [lia|]. rewrite Nat.add_0_r in He.
      rewrite task_engine_step, He. cbn zeta.
      rewrite body_calls by done.
      destruct (IH (S c) (S n) k v) as (Ho & Hc & Ha & Hs); [lia| | |].
      * intros i Hi. replace (S n + i) with (n + S i) by lia.
        apply Hraise. lia.
      * replace (S n + k) with (n + S k) by lia. done.
      * retried_run. rewrite Ho, Hc, Ha, Hs.
        repeat split; first [lia | reflexivity].
Qed.

(** The body raises at each of its retries+1 runs: the task fails with
    the exception of the last run, after retries+1 runs. *)
Lemma task_engine_exhausted r : forall c n,
  (forall i, i <= r -> exists e, outcome (fn (n + i)) = Raise e) ->
  let R := task_engine name d fn r c n in
  outcome R = outcome (fn (n + r)) /\ calls_after R = S (n + r)
  /\ attempts name (events R) = S r /\ sleeps (events R) = replicate r d.
Proof.
  induction r as [|r IH]; intros c n Hraise R; subst R.
  - destruct (Hraise 0) as [e He]; [lia|]. rewrite Nat.add_0_r in *.
    rewrite task_engine_step, He. single_run.
  - destruct (Hraise 0) as [e He]; [lia|]. rewrite Nat.add_0_r in He.
    rewrite task_engine_step, He. cbn zeta.
    rewrite body_calls by done.
    destruct (IH (S c) (S n)) as (Ho & Hc & Ha & Hs).
    + intros i Hi. replace (S n + i) with (n + S i) by lia.
      apply Hraise. lia.
    + retried_run. rewrite Ho, Hc, Ha, Hs.
      replace (S n + r) with (n + S r) by lia. done.
Qed.

(** Whatever the body does, it is run at most retries+1 times. *)
Lemma task_engine_bounded r : forall c n,
  attempts name (events (task_engine name d fn r c n)) <= S r.
Proof.
  induction r as [|r IH]; intros c n; rewrite task_engine_step.
  - destruct (outcome (fn n)); retried_run; lia.
  - destruct (outcome (fn n)); retried_run; [lia|].
    specialize (IH (S c) (calls_after (fn n))). lia.
Qed.
End Engine.

(** The two tasks of the flow module, in terms of the agent's answers. *)

Lemma security_check_fn_outcome a msg n :
  outcome (security_check_fn a msg n) =
  match a n msg with
  | Returns v => Ok (String.eqb (lower v) "passed")
  | Raises e => Raise e
  end.
Proof. rewrite security_check_fn_run. destruct (a n msg); reflexivity. Qed.

Lemma get_response_fn_outcome a msg n :
  outcome (get_response_fn a msg n) =
  match a n msg with
  | Returns v => Ok v
  | Raises e => Raise e
  end.
Proof. rewrite get_response_fn_run. destruct (a n msg); reflexivity. Qed.

Lemma security_check_succeeds a msg n k v :
  k <= 3 ->
  (forall i, i < k -> exists e, a (n + i) msg = Raises e) ->
  a (n + k) msg = Returns v ->
  let R := security_check a msg n in
  outcome R = Ok (String.eqb (lower v) "passed") /\ calls_after R = S (n + k)
  /\ attempts "security_check" (events R) = S k
  /\ sleeps (events R) = replicate k 5.
Proof.
  intros Hk Hraise Hret.
  apply (task_engine_succeeds "security_check" 5 _
           (security_check_fn_body a msg) 3 1 n k); [done| |].
  - intros i Hi. destruct (Hraise i Hi) as [e He]. exists e.
    rewrite security_check_fn_outcome, He. reflexivity.
  - rewrite security_check_fn_outcome, Hret. reflexivity.
Qed.

Lemma get_response_succeeds a msg n k v :
  k <= 3 ->
  (forall i, i < k -> exists e, a (n + i) msg = Raises e) ->
  a (n + k) msg = Returns v ->
  let R := get_response a msg n in
  outcome R = Ok v /\ calls_after R = S (n + k)
  /\ attempts "get_response" (events R) = S k
  /\ sleeps (events R) = replicate k 5.
Proof.
  intros Hk Hraise Hret.
  apply (task_engine_succeeds "get_response" 5 _
           (get_response_fn_body a msg) 3 1 n k); [done| |].
  - intros i Hi. destruct (Hraise i Hi) as [e He]. exists e.
    rewrite get_response_fn_outcome, He. reflexivity.
  - rewrite get_response_fn_outcome, Hret. reflexivity.
Qed.

Lemma security_check_exhausted a msg n :
  (forall i, i <= 3 -> exists e, a (n + i) msg = Raises e) ->
  let R := security_check a msg n in
  (exists e, a (n + 3) msg = Raises e /\ outcome R = Raise e)
  /\ calls_after R = n + 4
  /\ attempts "security_check" (events R) = 4
  /\ sleeps (events R) = [5; 5; 5].
Proof.
  intros Hraise.
  destruct (task_engine_exhausted "security_check" 5 _
              (security_check_fn_body a msg) 3 1 n) as (Ho & Hc & Ha & Hs).
  - intros i Hi. destruct (Hraise i Hi) as [e He]. exists e.
    rewrite security_check_fn_outcome, He. reflexivity.
  - destruct (Hraise 3) as [e He]; [lia|].
    rewrite security_check_fn_outcome, He in Ho.
    cbn zeta. unfold security_check, task.
    rewrite Ho, Hc, Ha, Hs. repeat split; eauto with lia.
Qed.

Lemma get_response_exhausted a msg n :
  (forall i, i <= 3 -> exists e, a (n + i) msg = Raises e) ->
  let R := get_response a msg n in
  (exists e, a (n + 3) msg = Raises e /\ outcome R = Raise e)
  /\ calls_after R = n + 4
  /\ attempts "get_response" (events R) = 4
  /\ sleeps (events R) = [5; 5; 5].
Proof.
  intros Hraise.
  destruct (task_engine_exhausted "get_response" 5 _
              (get_response_fn_body a msg) 3 1 n) as (Ho & Hc & Ha & Hs).
  - intros i Hi. destruct (Hraise i Hi) as [e He]. exists e.
    rewrite get_response_fn_outcome, He. reflexivity.
  - destruct (Hraise 3) as [e He]; [lia|].
    rewrite get_response_fn_outcome, He in Ho.
    cbn zeta. unfold get_response, task.
    rewrite Ho, Hc, Ha, Hs. repeat split; eauto with lia.
Qed.

(** The flow function in terms of its two tasks. *)
Lemma flow_fn_run a msg n :
  sequential_chat_processing_flow_fn a msg n =
  let S := security_check a msg n in
  let start := Info "Starting sequential chat processing flow" in
  match outcome S with
  | Raise e => Run (Raise e) (calls_after S) (start :: events S)
  | Ok false =>
      Run (Raise (ValueError "Security check failed")) (calls_after S)
          (start :: events S)
  | Ok true =>
      let G := get_response a msg (calls_after S) in
      Run (outcome G) (calls_after G) (start :: events S ++ events G)
  end.
Proof.
  unfold sequential_chat_processing_flow_fn.
  generalize (security_check a msg) (get_response a msg). intros S G.
  unfold try_except, mbind, M_bind, bind, emit, raise, mret, M_ret, ret.
  cbn.
  destruct (S n) as [[[|]|e] m evs]; cbn; rewrite ?app_nil_r;
    try reflexivity.
  destruct (G m) as [[v|e] m' evs']; cbn; rewrite ?app_nil_r; reflexivity.
Qed.

(** A run whose security check completes with [false]. *)
Lemma flow_rejected a msg n :
  outcome (security_check a msg n) = Ok false ->
  sequential_chat_processing_flow a msg n =
  (Failed (ValueError "Security check failed"),
   Info "Starting sequential chat processing flow"
     :: events (security_check a msg n)).
Proof.
  intros H. unfold sequential_chat_processing_flow.
  rewrite flow_fn_run. cbn zeta. rewrite H. reflexivity.
Qed.

Lemma attempts_other name name' c evs :
  name <> name' ->
  attempts name (TaskRun name' c :: evs) = attempts name evs.
Proof.
  intros Hne. unfold attempts. rewrite filter_cons_False; [reflexivity|].
  cbn. intros H%String.eqb_eq. congruence.
Qed.

Lemma attempts_Info name s evs :
  attempts name (Info s :: evs) = attempts name evs.
Proof. reflexivity. Qed.

Lemma sleeps_Info s evs : sleeps (Info s :: evs) = sleeps evs.
Proof. reflexivity. Qed.

(** The engine running one task emits no run of a task of another name. *)
Lemma task_engine_other_task {A} name name' d (fn : M A) :
  task_body fn -> name <> name' ->
  forall r c n, attempts name (events (task_engine name' d fn r c n)) = 0.
Proof.
  intros Hbody Hne. induction r as [|r IH]; intros c n;
    rewrite task_engine_step; destruct (outcome (fn n));
    cbn [events]; rewrite ?attempts_app, ?attempts_other, ?attempts_Sleep
      by done; rewrite ?(body_attempts _ Hbody), ?IH; reflexivity.
Qed.

End Retry.

(** ** The security gate *)

Module SecurityGate.

Import Retry.

(** The first run of the check when the agent answers with a string. *)
Lemma security_check_answered a msg n v :
  a n msg = Returns v ->
  security_check a msg n =
  Run (Ok (String.eqb (lower v) "passed")) (S n)
      [TaskRun "security_check" 1; Info "Doing security check...";
       AgentCall n msg].
Proof.
  intros H. unfold security_check, task.
  rewrite task_engine_step, security_check_fn_run, H. reflexivity.
Qed.

(** Characters that [lower_char] sends to a lower-case ASCII letter. *)
Lemma lower_char_letter (c l : ascii) :
  (97 <= N_of_ascii l <= 122)%N ->
  lower_char c = l ->
  c = l \/ c = ascii_of_N (N_of_ascii l - 32).
Proof.
  intros Hl <-. unfold lower_char in *.
  set (n := N_of_ascii c) in *.
  destruct ((65 <=? n) && (n <=? 90)
            || (192 <=? n) && (n <=? 222) && negb (n =? 215))%N eqn:Hup;
    [|left; reflexivity].
  right.
  assert (n <= 222)%N as Hn.
  { apply orb_true_iff in Hup as [H|H].
    - apply andb_true_iff in H as [_ H%N.leb_le]. lia.
    - apply andb_true_iff in H as [H _].
      apply andb_true_iff in H as [_ H%N.leb_le]. lia. }
  rewrite N_ascii_embedding by lia. rewrite N.add_sub. subst n.
  rewrite ascii_N_embedding. reflexivity.
Qed.

(** The strings the check accepts: "passed" with each letter in either
    case, and nothing else. *)
Lemma lower_passed v :
  lower v = "passed" <->
  exists c1 c2 c3 c4 c5 c6,
    v = String c1 (String c2 (String c3 (String c4 (String c5
          (String c6 EmptyString)))))
    /\ either_case "p" c1 /\ either_case "a" c2 /\ either_case "s" c3
    /\ either_case "s" c4 /\ either_case "e" c5 /\ either_case "d" c6.
Proof.
  split.
  - intros H.
    destruct v as [|c1 [|c2 [|c3 [|c4 [|c5 [|c6 [|c7 v]]]]]]];
      try discriminate H.
    cbn in H. injection H as H1 H2 H3 H4 H5 H6.
    exists c1, c2, c3, c4, c5, c6. split; [reflexivity|].
    repeat split; apply lower_char_letter; cbn; first [lia | assumption].
  - intros (c1 & c2 & c3 & c4 & c5 & c6 & -> & H1 & H2 & H3 & H4 & H5 & H6).
    destruct H1 as [-> | ->], H2 as [-> | ->], H3 as [-> | ->],
      H4 as [-> | ->], H5 as [-> | ->], H6 as [-> | ->]; reflexivity.
Qed.

(** C9.  Whatever string the security agent returns, the check completes
    with [true] exactly when the lower-cased string is "passed": "PASSED"
    and the other mixed-case spellings pass, and every other string,
    expected or not, gives [false]. *)
Theorem security_check_case_insensitive (a : agent) (msg : string)
    (n : nat) (v : string) :
  a n msg = Returns v ->
  (outcome (security_check a msg n) = Ok true <-> lower v = "passed")
  /\ (lower v <> "passed" -> outcome (security_check a msg n) = Ok false)
  /\ lower "PASSED" = "passed" /\ lower "PaSsEd" = "passed".
Proof.
  intros H. rewrite (security_check_answered _ _ _ _ H). cbn [outcome].
  repeat split.
  - intros [= Heq]. apply String.eqb_eq. assumption.
  - intros Heq. f_equal. apply String.eqb_eq. assumption.
  - intros Hne. f_equal. apply String.eqb_neq. assumption.
Qed.

Lemma security_check_case_insensitive_witness :
  always (Returns "PASSED") 0 "hello" = Returns "PASSED"
  /\ outcome (security_check (always (Returns "PASSED")) "hello" 0) = Ok true.
Proof.
  split; [reflexivity|].
  apply (security_check_case_insensitive
           (always (Returns "PASSED")) "hello" 0 "PASSED");
    reflexivity.
Defined.

(** C1, as stated, fails: for a returned string that is neither "passed"
    nor "failed" the check completes with [false]; nothing is raised and
    the task is not run again. *)
Lemma security_check_unexpected_value_is_false :
  "maybe" <> "passed" /\ "maybe" <> "failed"
  /\ security_check (always (Returns "maybe")) "hello" 0 =
     Run (Ok false) 1
         [TaskRun "security_check" 1; Info "Doing security check...";
          AgentCall 0 "hello"]
  /\ forall e, outcome (security_check (always (Returns "maybe")) "hello" 0)
               <> Raise e.
Proof. repeat split; discriminate. Qed.

(** C1, amended.  The check maps "passed" to [true] and "failed" to
    [false]; for every other returned string it completes as well, with
    [true] when the lower-cased string is "passed" and [false] otherwise,
    after a single run of the task and without raising. *)
Theorem security_check_maps_strings_to_booleans (a : agent) (msg : string)
    (n : nat) (v : string) :
  a n msg = Returns v ->
  let R := security_check a msg n in
  (v = "passed" -> outcome R = Ok true)
  /\ (v = "failed" -> outcome R = Ok false)
  /\ outcome R = Ok (String.eqb (lower v) "passed")
  /\ attempts "security_check" (events R) = 1.
Proof.
  intros H R. subst R. rewrite (security_check_answered _ _ _ _ H).
  cbn [outcome events].
  repeat split; try (intros ->; reflexivity).
Qed.

Lemma security_check_maps_strings_to_booleans_witness :
  always (Returns "failed") 0 "hello" = Returns "failed"
  /\ outcome (security_check (always (Returns "failed")) "hello" 0) = Ok false.
Proof.
  split; [reflexivity|].
  apply (security_check_maps_strings_to_booleans
           (always (Returns "failed")) "hello" 0 "failed");
    reflexivity.
Defined.

End SecurityGate.

(** ** The workflow: retries and the security short-circuit *)

Module Orchestrator.

Import Retry.

(** C2, as stated, fails: an agent that raises a FatalInferenceError on
    every call is called again after each failure; the security task
    runs four times, with three waits of 5 seconds, before the run
    fails. *)
Lemma fatal_error_is_retried :
  sequential_chat_processing_flow (always (Raises fatal)) "hello" 0 =
  (Failed fatal,
   [Info "Starting sequential chat processing flow";
    TaskRun "security_check" 1; Info "Doing security check...";
    AgentCall 0 "hello"; Sleep 5;
    TaskRun "security_check" 2; Info "Doing security check...";
    AgentCall 1 "hello"; Sleep 5;
    TaskRun "security_check" 3; Info "Doing security check...";
    AgentCall 2 "hello"; Sleep 5;
    TaskRun "security_check" 4; Info "Doing security check...";
    AgentCall 3 "hello"])
  /\ attempts "security_check"
       (sequential_chat_processing_flow (always (Raises fatal)) "hello" 0).2
     <> 1.
Proof. split; [reflexivity | discriminate]. Qed.

(** C2, amended.  Each task is run again after every exception its body
    raises, whatever the class of the exception, with a wait of 5 seconds
    before each re-run and at most 3 re-runs: when the agent raises on
    its first [k <= 3] calls and then answers, the task completes after
    [k + 1] runs and [k] waits.  A security answer that is not "passed"
    completes the security task, which is not run again, and fails the
    run at once: the response task is never started. *)
Theorem tasks_retry_on_any_exception (a : agent) (msg : string)
    (n k : nat) (v : string) :
  k <= 3 ->
  (forall i, i < k -> exists e, a (n + i) msg = Raises e) ->
  a (n + k) msg = Returns v ->
  let C := security_check a msg n in
  let G := get_response a msg n in
  let F := sequential_chat_processing_flow a msg n in
  (outcome C = Ok (String.eqb (lower v) "passed")
   /\ attempts "security_check" (events C) = S k
   /\ sleeps (events C) = replicate k 5)
  /\ (outcome G = Ok v
      /\ attempts "get_response" (events G) = S k
      /\ sleeps (events G) = replicate k 5)
  /\ (lower v <> "passed" ->
      F.1 = Failed (ValueError "Security check failed")
      /\ attempts "security_check" F.2 = S k
      /\ attempts "get_response" F.2 = 0
      /\ sleeps F.2 = replicate k 5).
Proof.
  intros Hk Hraise Hret C G F.
  destruct (security_check_succeeds a msg n k v Hk Hraise Hret)
    as (HCo & _ & HCa & HCs).
  destruct (get_response_succeeds a msg n k v Hk Hraise Hret)
    as (HGo & _ & HGa & HGs).
  repeat split; try assumption.
  all: subst F; rewrite flow_rejected
    by (rewrite HCo; f_equal; apply String.eqb_neq; assumption);
    cbn [fst snd]; rewrite ?attempts_Info, ?sleeps_Info;
    try reflexivity; try assumption.
  unfold security_check, task.
  apply (task_engine_other_task _ _ _ _ (security_check_fn_body a msg)).
  discriminate.
Qed.

Lemma tasks_retry_on_any_exception_witness :
  2 <= 3
  /\ (forall i, i < 2 ->
      exists e, raises_then_returns 2 fatal "failed" (0 + i) "hello"
                = Raises e)
  /\ raises_then_returns 2 fatal "failed" (0 + 2) "hello" = Returns "failed"
  /\ attempts "security_check"
       (events (security_check (raises_then_returns 2 fatal "failed")
                  "hello" 0)) = 3.
Proof.
  assert (forall i, i < 2 ->
          exists e, raises_then_returns 2 fatal "failed" (0 + i) "hello"
                    = Raises e) as Hraise.
  { intros i Hi. exists fatal. unfold raises_then_returns.
    destruct (Nat.ltb_spec (0 + i) 2); [reflexivity | lia]. }
  split; [lia|]. split; [exact Hraise|]. split; [reflexivity|].
  destruct (tasks_retry_on_any_exception
              (raises_then_returns 2 fatal "failed") "hello" 0 2 "failed")
    as ((_ & Hruns & _) & _); [lia | exact Hraise | reflexivity |].
  exact Hruns.
Defined.

(** C3.  When the security agent answers "failed" on every call, the run
    ends failed with the error the flow raises for a rejected query,
    [ValueError("Security check failed")], and the response task is never
    run: the security task ran once and the agent was called once. *)
Theorem security_failed_rejects_run (a : agent) (message : string)
    (n : nat) :
  (forall k, a k message = Returns "failed") ->
  let F := sequential_chat_processing_flow a message n in
  F.1 = Failed (ValueError "Security check failed")
  /\ attempts "get_response" F.2 = 0
  /\ attempts "security_check" F.2 = 1
  /\ agent_calls F.2 = [n].
Proof.
  intros H F.
  destruct (security_check_succeeds a message n 0 "failed")
    as (Ho & _ & _ & _); [lia | intros; lia | |].
  { rewrite Nat.add_0_r. apply H. }
  subst F. rewrite flow_rejected by exact Ho.
  unfold security_check, task.
  rewrite task_engine_step, security_check_fn_run, H. cbn [outcome events].
  repeat split.
Qed.

Lemma security_failed_rejects_run_witness :
  (forall k, always (Returns "failed") k "hello" = Returns "failed")
  /\ (sequential_chat_processing_flow (always (Returns "failed")) "hello" 0).1
     = Failed (ValueError "Security check failed")
  /\ attempts "get_response"
       (sequential_chat_processing_flow (always (Returns "failed")) "hello" 0).2
     = 0.
Proof.
  split; [reflexivity|].
  pose proof (security_failed_rejects_run
                (always (Returns "failed")) "hello" 0 (fun _ => eq_refl))
    as (H1 & H2 & _).
  split; assumption.
Defined.

(** C4, as stated, fails: when the agent raises a TransientInferenceError
    on every call, a task declared with [retries=3] is run a fourth time
    before it fails. *)
Lemma transient_failure_runs_four_times :
  attempts "security_check"
    (events (security_check (always (Raises transient)) "hello" 0)) = 4
  /\ agent_calls
       (events (security_check (always (Raises transient)) "hello" 0))
     = [0; 1; 2; 3]
  /\ outcome (security_check (always (Raises transient)) "hello" 0)
     = Raise transient
  /\ attempts "get_response"
       (events (get_response (always (Raises transient)) "hello" 0)) = 4.
Proof. repeat split. Qed.

(** C4, amended.  When the agent raises on every call, each of the two
    tasks, declared with [retries=3], fails with the exception of its
    fourth run after exactly 4 runs (the first one and 3 re-runs, with 3
    waits of 5 seconds); and no agent whatever makes a task run a fifth
    time. *)
Theorem task_fails_after_four_runs (a : agent) (msg : string) (n : nat) :
  (forall k, exists e, a k msg = Raises e) ->
  let C := security_check a msg n in
  let G := get_response a msg n in
  ((exists e, a (n + 3) msg = Raises e /\ outcome C = Raise e)
   /\ attempts "security_check" (events C) = 4
   /\ sleeps (events C) = [5; 5; 5])
  /\ ((exists e, a (n + 3) msg = Raises e /\ outcome G = Raise e)
      /\ attempts "get_response" (events G) = 4
      /\ sleeps (events G) = [5; 5; 5])
  /\ (forall (b : agent) m,
        attempts "security_check" (events (security_check b msg m)) <= 4
        /\ attempts "get_response" (events (get_response b msg m)) <= 4).
Proof.
  intros H C G.
  destruct (security_check_exhausted a msg n) as (HCo & _ & HCa & HCs);
    [intros; apply H|].
  destruct (get_response_exhausted a msg n) as (HGo & _ & HGa & HGs);
    [intros; apply H|].
  repeat split; try assumption.
  - apply (task_engine_bounded "security_check" 5 _
             (security_check_fn_body b msg) 3 1 m).
  - apply (task_engine_bounded "get_response" 5 _
             (get_response_fn_body b msg) 3 1 m).
Qed.

Lemma task_fails_after_four_runs_witness :
  (forall k, exists e, always (Raises transient) k "hello" = Raises e)
  /\ attempts "security_check"
       (events (security_check (always (Raises transient)) "hello" 0)) = 4.
Proof.
  assert (forall k, exists e, always (Raises transient) k "hello" = Raises e)
    as H by (intros k; exists transient; reflexivity).
  split; [exact H|].
  apply (task_fails_after_four_runs (always (Raises transient)) "hello" 0 H).
Defined.

End Orchestrator.

(** ** Configuration: [Management] *)

Module Config.

Lemma hasattr_set cls m k : is_Some (m !! k) -> hasattr cls m k = true.
Proof.
  intros H. unfold hasattr. rewrite bool_decide_eq_true_2 by assumption.
  reflexivity.
Qed.

Lemma hasattr_class cls m k : class_attr cls k = true -> hasattr cls m k = true.
Proof. intros H. unfold hasattr. rewrite H. apply orb_true_r. Qed.

Lemma hasattr_false cls m k :
  hasattr cls m k = false <-> m !! k = None /\ class_attr cls k = false.
Proof.
  unfold hasattr.
  rewrite orb_false_iff, bool_decide_eq_false, <- eq_None_not_Some.
  reflexivity.
Qed.

Lemma setattr_field cls m k v :
  k ∈ Metadata_fields -> setattr cls m k v = Ok (<[k := v]> m).
Proof.
  intros H. unfold setattr. rewrite bool_decide_eq_true_2 by assumption.
  reflexivity.
Qed.

Lemma setattr_other cls m k v :
  k ∉ Metadata_fields -> setattr cls m k v = setattr_inherited cls m k v.
Proof.
  intros H. unfold setattr. rewrite bool_decide_eq_false_2 by assumption.
  reflexivity.
Qed.

Lemma Metadata_new_instance model tokens temperature max_tokens provider
    api_key base_url :
  Metadata_instance
    (Metadata_new model tokens temperature max_tokens provider api_key
       base_url).
Proof.
  intros k. unfold Metadata_new, Metadata_fields.
  rewrite !lookup_insert_is_Some, lookup_empty, !elem_of_cons, elem_of_nil.
  split.
  - intros H.
    repeat (destruct H as [<-|[_ H]]; [auto 10|]).
    destruct H as [x Hx]. discriminate Hx.
  - intros H.
    destruct (decide ("model" = k)); [by left|right; split; [done|]].
    destruct (decide ("tokens" = k)); [by left|right; split; [done|]].
    destruct (decide ("temperature" = k)); [by left|right; split; [done|]].
    destruct (decide ("max_tokens" = k)); [by left|right; split; [done|]].
    destruct (decide ("provider" = k)); [by left|right; split; [done|]].
    destruct (decide ("api_key" = k)); [by left|right; split; [done|]].
    destruct (decide ("base_url" = k)); [by left|].
    repeat (destruct H as [->|H]; [done|]). destruct H.
Qed.

Lemma apply_kwargs_cons m k v kwargs :
  apply_kwargs m ((k, v) :: kwargs) = apply_kwargs (<[k := v]> m) kwargs.
Proof. reflexivity. Qed.

Lemma apply_kwargs_snoc m kwargs k v :
  apply_kwargs m (kwargs ++ [(k, v)]) = <[k := v]> (apply_kwargs m kwargs).
Proof. unfold apply_kwargs. rewrite foldl_app. reflexivity. Qed.

(** Assigning to a declared field of an instance leaves an instance. *)
Lemma insert_instance m k v :
  Metadata_instance m -> k ∈ Metadata_fields ->
  Metadata_instance (<[k := v]> m).
Proof.
  intros Hm Hk k'. rewrite lookup_insert_is_Some. specialize (Hm k').
  destruct (decide (k = k')) as [<-|Hne]; tauto.
Qed.

Lemma apply_kwargs_instance kwargs : forall m,
  Metadata_instance m ->
  Forall (fun kv => kv.1 ∈ Metadata_fields) kwargs ->
  Metadata_instance (apply_kwargs m kwargs).
Proof.
  induction kwargs as [|[k v] kwargs IH]; intros m Hm Hall; [exact Hm|].
  apply Forall_cons in Hall as [Hk Hall]. cbn [fst] in Hk.
  rewrite apply_kwargs_cons. apply IH; [|assumption].
  apply insert_instance; assumption.
Qed.

Lemma apply_kwargs_other kwargs : forall m k,
  k ∉ (kwargs.*1) -> apply_kwargs m kwargs !! k = m !! k.
Proof.
  induction kwargs as [|[k' v'] kwargs IH]; intros m k Hk; [reflexivity|].
  rewrite fmap_cons in Hk. cbn [fst] in Hk.
  apply not_elem_of_cons in Hk as [Hne Hk].
  rewrite apply_kwargs_cons, IH by assumption.
  apply lookup_insert_ne. congruence.
Qed.

Lemma apply_kwargs_set kwargs : forall m k v,
  NoDup (kwargs.*1) -> (k, v) ∈ kwargs -> apply_kwargs m kwargs !! k = Some v.
Proof.
  induction kwargs as [|[k' v'] kwargs IH]; intros m k v Hnd Hin.
  - apply elem_of_nil in Hin as [].
  - rewrite fmap_cons in Hnd. cbn [fst] in Hnd.
    apply NoDup_cons in Hnd as [Hfresh Hnd]. rewrite apply_kwargs_cons.
    apply elem_of_cons in Hin as [[= -> ->]|Hin].
    + rewrite apply_kwargs_other by assumption.
      apply lookup_insert_eq.
    + apply IH; assumption.
Qed.


(** A prefix of declared fields is assigned, one name after the other, to
    the object the manager refers to; the loop then goes on with the
    rest. *)
Lemma update_metadata_prefix cls self pre : forall h m rest,
  h !! metadata self = Some m ->
  Metadata_instance m ->
  Forall (fun kv => kv.1 ∈ Metadata_fields) pre ->
  update_metadata cls self (pre ++ rest) h =
  update_metadata cls self rest (<[metadata self := apply_kwargs m pre]> h).
Proof.
  induction pre as [|[k v] pre IH]; intros h m rest Hh Hm Hall.
  - cbn. rewrite insert_id by assumption. reflexivity.
  - apply Forall_cons in Hall as [Hk Hall]. cbn [fst] in Hk.
    rewrite apply_kwargs_cons. cbn [app update_metadata].
    unfold deref. rewrite Hh, hasattr_set by (apply Hm, Hk).
    rewrite setattr_field by assumption.
    rewrite (IH _ (<[k := v]> m)).
    + rewrite insert_insert_eq. reflexivity.
    + apply lookup_insert_eq.
    + apply insert_instance; assumption.
    + assumption.
Qed.

(** A call whose names are all declared fields. *)
Lemma update_metadata_valid cls self h m kwargs :
  h !! metadata self = Some m ->
  Metadata_instance m ->
  Forall (fun kv => kv.1 ∈ Metadata_fields) kwargs ->
  update_metadata cls self kwargs h =
  (Ok tt, <[metadata self := apply_kwargs m kwargs]> h).
Proof.
  intros Hh Hm Hall. rewrite <- (app_nil_r kwargs) at 1.
  rewrite (update_metadata_prefix _ _ _ _ m) by assumption.
  reflexivity.
Qed.

(** The three things that can happen at a name that is not a declared
    field. *)
Lemma update_metadata_not_attribute cls self h m bad value rest :
  h !! metadata self = Some m ->
  hasattr cls m bad = false ->
  update_metadata cls self ((bad, value) :: rest) h =
  (Raise (ValueError ("Invalid metadata field: " +:+ bad)), h).
Proof. intros Hh Hbad. cbn. unfold deref. rewrite Hh, Hbad. reflexivity. Qed.


Lemma update_metadata_inherited cls self h m key value rest m' :
  h !! metadata self = Some m ->
  class_attr cls key = true ->
  key ∉ Metadata_fields ->
  setattr_inherited cls m key value = Ok m' ->
  update_metadata cls self ((key, value) :: rest) h =
  update_metadata cls self rest (<[metadata self := m']> h).
Proof.
  intros Hh Hattr Hkey Hset. cbn [update_metadata]. unfold deref.
  rewrite Hh, hasattr_class, setattr_other, Hset by assumption. reflexivity.
Qed.



(** C6.  What [update_metadata] does with a name depends on [hasattr], not
    on the list of declared fields.  On an instance of [Metadata]: a call
    whose names are all declared fields assigns each value to its field
    and leaves the other fields as they were; after such names, a name
    that is not an attribute at all raises
    [ValueError("Invalid metadata field: ..")].  But a name that is not a
    declared field and that attribute lookup finds on the class, such as
    [__doc__], passes the test: when the inherited assignment accepts it
    the call returns, with nothing raised for that name. *)
Theorem update_metadata_probes_attributes (cls : BaseModel)
    (self : Management) (h : store) (m : Metadata) :
  h !! metadata self = Some m ->
  Metadata_instance m ->
  (forall kwargs,
     NoDup (kwargs.*1) ->
     Forall (fun kv => kv.1 ∈ Metadata_fields) kwargs ->
     update_metadata cls self kwargs h =
       (Ok tt, <[metadata self := apply_kwargs m kwargs]> h)
     /\ (forall k v, (k, v) ∈ kwargs ->
           apply_kwargs m kwargs !! k = Some v)
     /\ (forall k, k ∉ (kwargs.*1) -> apply_kwargs m kwargs !! k = m !! k))
  /\ (forall pre bad value rest,
        Forall (fun kv => kv.1 ∈ Metadata_fields) pre ->
        hasattr cls m bad = false ->
        (update_metadata cls self (pre ++ (bad, value) :: rest) h).1 =
        Raise (ValueError ("Invalid metadata field: " +:+ bad)))
  /\ (forall key value m',
        (key ∉ Metadata_fields) ->
        class_attr cls key = true ->
        setattr_inherited cls m key value = Ok m' ->
        update_metadata cls self [(key, value)] h =
        (Ok tt, <[metadata self := m']> h)).
Proof.
  intros Hh Hm. split; [|split].
  - intros kwargs Hnd Hall. split; [|split].
    + apply update_metadata_valid; assumption.
    + intros k v Hin. apply apply_kwargs_set; assumption.
    + intros k Hk. apply apply_kwargs_other; assumption.
  - intros pre bad value rest Hpre Hbad.
    rewrite (update_metadata_prefix _ _ _ _ m) by assumption.
    rewrite (update_metadata_not_attribute _ _ _ (apply_kwargs m pre));
      [reflexivity | apply lookup_insert_eq |].
    apply hasattr_false in Hbad as [Hnone Hcls].
    apply hasattr_false. split; [|assumption].
    rewrite apply_kwargs_other; [assumption|].
    intros ([k v] & -> & Hin)%list_elem_of_fmap.
    rewrite Forall_forall in Hpre. apply Hpre, Hm in Hin.
    cbn [fst] in *. destruct Hin as [x Hx]. congruence.
  - intros key value m' Hkey Hattr Hset.
    rewrite (update_metadata_inherited _ _ _ m _ _ _ m') by assumption.
    reflexivity.
Qed.

Lemma update_metadata_probes_attributes_witness :
  sample_store !! metadata (Management_init sample_loc) = Some sample_metadata
  /\ update_metadata sample_BaseModel (Management_init sample_loc)
       [("__doc__", VStr "x")] sample_store
     = (Ok tt, <[sample_loc := <["__doc__" := VStr "x"]> sample_metadata]>
                 sample_store)
  /\ (update_metadata sample_BaseModel (Management_init sample_loc)
        [("temperature", VFloat (1 # 2)); ("bogus", VNone)] sample_store).1
     = Raise (ValueError "Invalid metadata field: bogus").
Proof.
  split; [reflexivity|].
  destruct (update_metadata_probes_attributes sample_BaseModel
              (Management_init sample_loc) sample_store sample_metadata)
    as (_ & Hraise & Hpass).
  - reflexivity.
  - apply Metadata_new_instance.
  - split.
    + apply Hpass; [|reflexivity|reflexivity].
      apply (bool_decide_unpack _). vm_compute. exact I.
    + apply (Hraise [("temperature", VFloat (1 # 2))] "bogus" VNone []).
      * apply (bool_decide_unpack _). vm_compute. exact I.
      * reflexivity.
Defined.



(** Reading the attributes of an instance never fails. *)
Lemma instance_getattr m k :
  Metadata_instance m -> k ∈ Metadata_fields ->
  exists v, m !! k = Some v /\ getattr m k = Ok v.
Proof.
  intros Hm Hk. apply Hm in Hk as [v Hv]. exists v.
  unfold getattr. rewrite Hv. split; reflexivity.
Qed.

Ltac declared_field :=
  unfold Metadata_fields; rewrite !elem_of_cons; auto 10.

(** [get_lm] on an instance: the only step of its own that can fail is
    [provider.value]. *)
Lemma get_lm_run {LM : Type} (LM_init : LM_args -> result LM) self h m :
  h !! metadata self = Some m ->
  Metadata_instance m ->
  exists model max_tokens temperature provider api_key base_url,
    m !! "model" = Some model /\ m !! "max_tokens" = Some max_tokens
    /\ m !! "temperature" = Some temperature
    /\ m !! "provider" = Some provider
    /\ m !! "api_key" = Some api_key /\ m !! "base_url" = Some base_url
    /\ get_lm LM_init self h =
       match enum_value provider with
       | Ok provider_value =>
           LM_init {| lm_model := model; lm_max_tokens := max_tokens;
                      lm_temperature := temperature;
                      lm_provider := provider_value;
                      lm_api_key := api_key; lm_base_url := base_url |}
       | Raise e => Raise e
       end.
Proof.
  intros Hh Hm.
  destruct (instance_getattr m "model" Hm) as (model & ? & Hg1); [declared_field|].
  destruct (instance_getattr m "max_tokens" Hm) as (mt & ? & Hg2); [declared_field|].
  destruct (instance_getattr m "temperature" Hm) as (t & ? & Hg3); [declared_field|].
  destruct (instance_getattr m "provider" Hm) as (pv & ? & Hg4); [declared_field|].
  destruct (instance_getattr m "api_key" Hm) as (ak & ? & Hg5); [declared_field|].
  destruct (instance_getattr m "base_url" Hm) as (bu & ? & Hg6); [declared_field|].
  exists model, mt, t, pv, ak, bu. repeat (split; [assumption|]).
  unfold get_lm, deref. rewrite Hh. unfold mbind at 1, result_bind at 1.
  rewrite Hg1, Hg2, Hg3, Hg4, Hg5, Hg6. cbn.
  destruct (enum_value pv); reflexivity.
Qed.

Lemma alloc_lookup m (h : store) : (alloc m h).2 !! (alloc m h).1 = Some m.
Proof. apply lookup_insert_eq. Qed.

Lemma enum_value_without_attr v :
  has_value_attr v = false ->
  exists e, enum_value v = Raise e /\ exn_class e = "AttributeError".
Proof.
  destruct v; try discriminate; intros _; eexists; split; reflexivity.
Qed.

(** C7, as stated, fails: [get_lm] rejects neither an empty model id nor a
    provider outside [ProviderType].  For the configuration whose model id
    is the empty string, and for the one whose provider attribute holds
    [PersonaType.ANALYST], the binding is the client's constructor applied
    to the attributes as they are, whatever the constructor; with a
    constructor that accepts its arguments both are bound. *)
Lemma get_lm_makes_no_check :
  let m := Metadata_new "" 0 (7 # 10) 1024 OPENAI None None in
  let m' := <["provider" := PersonaType_ANALYST]> sample_metadata in
  (forall (LM : Type) (LM_init : LM_args -> result LM),
     get_lm LM_init (Management_init (alloc m ∅).1) (alloc m ∅).2 =
     LM_init {| lm_model := VStr ""; lm_max_tokens := VInt 1024;
                lm_temperature := VFloat (7 # 10);
                lm_provider := VStr "openai";
                lm_api_key := VNone; lm_base_url := VNone |})
  /\ get_lm storing_client (Management_init (alloc m ∅).1) (alloc m ∅).2 =
     Ok {| lm_model := VStr ""; lm_max_tokens := VInt 1024;
           lm_temperature := VFloat (7 # 10); lm_provider := VStr "openai";
           lm_api_key := VNone; lm_base_url := VNone |}
  /\ (forall (LM : Type) (LM_init : LM_args -> result LM),
        get_lm LM_init (Management_init (alloc m' ∅).1) (alloc m' ∅).2 =
        LM_init {| lm_model := VStr "openai/gpt-4o-mini";
                   lm_max_tokens := VInt 1024;
                   lm_temperature := VFloat (7 # 10);
                   lm_provider := VStr "analyst";
                   lm_api_key := VNone; lm_base_url := VNone |})
  /\ get_lm storing_client (Management_init (alloc m' ∅).1) (alloc m' ∅).2 =
     Ok {| lm_model := VStr "openai/gpt-4o-mini"; lm_max_tokens := VInt 1024;
           lm_temperature := VFloat (7 # 10); lm_provider := VStr "analyst";
           lm_api_key := VNone; lm_base_url := VNone |}.
Proof. repeat split; reflexivity. Qed.

(** C7, amended.  Binding a configuration fails, with the AttributeError
    of [provider.value], whenever the provider attribute holds a value
    that has no [.value] attribute: [None], a [str], a number.  [get_lm]
    checks nothing else.  When the provider attribute has a [.value],
    member of [ProviderType] or not, that value, the model id and the
    other attributes are handed as they are to the client's constructor,
    whose result is the result of the binding; so is an empty model id. *)
Theorem get_lm_checks_provider_only {LM : Type}
    (LM_init : LM_args -> result LM) (self : Management) (h : store)
    (m : Metadata) :
  h !! metadata self = Some m ->
  Metadata_instance m ->
  (forall pv, m !! "provider" = Some pv -> has_value_attr pv = false ->
   exists e, get_lm LM_init self h = Raise e
             /\ exn_class e = "AttributeError")
  /\ (forall pv x, m !! "provider" = Some pv -> enum_value pv = Ok x ->
      exists model max_tokens temperature api_key base_url,
        m !! "model" = Some model /\ m !! "max_tokens" = Some max_tokens
        /\ m !! "temperature" = Some temperature
        /\ m !! "api_key" = Some api_key /\ m !! "base_url" = Some base_url
        /\ get_lm LM_init self h =
           LM_init {| lm_model := model; lm_max_tokens := max_tokens;
                      lm_temperature := temperature;
                      lm_provider := x;
                      lm_api_key := api_key; lm_base_url := base_url |})
  /\ (forall tokens temperature max_tokens provider api_key base_url
             (h0 : store),
      let m0 := Metadata_new "" tokens temperature max_tokens provider
                  api_key base_url in
      get_lm LM_init (Management_init (alloc m0 h0).1) (alloc m0 h0).2
      = LM_init {| lm_model := VStr ""; lm_max_tokens := VInt max_tokens;
                   lm_temperature := VFloat temperature;
                   lm_provider := VStr (ProviderType_value provider);
                   lm_api_key := VOptStr api_key;
                   lm_base_url := VOptStr base_url |}).
Proof.
  intros Hh Hm.
  destruct (get_lm_run LM_init self h m Hh Hm)
    as (model & mt & t & pv & ak & bu & H1 & H2 & H3 & H4 & H5 & H6 & Hrun).
  split; [|split].
  - intros pv' Hpv Hnone. rewrite H4 in Hpv. injection Hpv as <-.
    rewrite Hrun.
    destruct (enum_value_without_attr pv Hnone) as (e & -> & He).
    exists e. split; [reflexivity | exact He].
  - intros pv' x Hpv Hx. rewrite H4 in Hpv. injection Hpv as <-.
    exists model, mt, t, ak, bu. repeat (split; [assumption|]).
    rewrite Hrun, Hx. reflexivity.
  - intros tokens temperature max_tokens provider api_key base_url h0 m0.
    destruct (get_lm_run LM_init (Management_init (alloc m0 h0).1)
                (alloc m0 h0).2 m0 (alloc_lookup m0 h0)
                (Metadata_new_instance _ _ _ _ _ _ _))
      as (model' & mt' & t' & pv' & ak' & bu'
          & G1 & G2 & G3 & G4 & G5 & G6 & G).
    vm_compute in G1, G2, G3, G4, G5, G6.
    injection G1 as <-. injection G2 as <-. injection G3 as <-.
    injection G4 as <-. injection G5 as <-. injection G6 as <-.
    exact G.
Qed.

Lemma get_lm_checks_provider_only_witness :
  sample_store !! metadata (Management_init sample_loc) = Some sample_metadata
  /\ get_lm storing_client (Management_init sample_loc) sample_store =
     storing_client {| lm_model := VStr "openai/gpt-4o-mini";
                       lm_max_tokens := VInt 1024;
                       lm_temperature := VFloat (7 # 10);
                       lm_provider := VStr "openai";
                       lm_api_key := VNone; lm_base_url := VNone |}.
Proof.
  split; [reflexivity|].
  destruct (get_lm_checks_provider_only storing_client
              (Management_init sample_loc) sample_store sample_metadata)
    as (_ & Hbound & _).
  - reflexivity.
  - apply Metadata_new_instance.
  - destruct (Hbound (VProvider OPENAI) (VStr "openai") eq_refl eq_refl)
      as (model & mt & t & ak & bu & H1 & H2 & H3 & H5 & H6 & Hrun).
    vm_compute in H1, H2, H3, H5, H6.
    injection H1 as <-. injection H2 as <-. injection H3 as <-.
    injection H5 as <-. injection H6 as <-.
    exact Hrun.
Defined.

End Config.

Module ForwardRuns.

(** Evaluates the lookups in the list of bindings. *)
Ltac list_lookups :=
  repeat match goal with
  | |- context [@lookup nat ?A (list ?A) ?I ?i ?l] =>
      let r := eval cbv in (@lookup nat A (list A) I i l) in
      change (@lookup nat A (list A) I i l) with r
  end.

(** One step of a run of [forward]: use an equation on the oracle or on a
    field of a prediction that is among the hypotheses. *)
Ltac forward_step :=
  cbn -[lookup]; list_lookups; unfold read_field, bound_arg in *;
  match goal with
  | H : ?p !! ?f = Some _ |- context [?p !! ?f] => rewrite H
  | H : ?oracle ?ctx ?k ?st ?args = _ |- context [?oracle ?ctx ?k ?st ?args] =>
      rewrite H
  end.

(** The three statements of [forward] in [BaseAgent] and [BaseAgentSync],
    when each stage answers: what each stage is called with, and what is
    returned. *)
Lemma base_forward_run {LM : Type} (oracle : stage_oracle LM)
    (ag : Agent LM) (query : string) (n : nat) (p1 p2 p3 : Prediction)
    (kw r q ans : fvalue) :
  agent_class ag = BaseAgent \/ agent_class ag = BaseAgentSync ->
  let ctx := if uses_own_lm (agent_class ag) then Some (agent_lm ag)
             else None in
  oracle ctx n reasoner [(Some "query", FStr query)] = Ok p1 ->
  p1 !! "keywords" = Some kw ->
  p1 !! "reasoning" = Some r ->
  oracle ctx (S n) enhance_query
    [(Some "query", FStr query); (Some "keywords", kw);
     (Some "reasoning", r)] = Ok p2 ->
  p2 !! "enhanced_query" = Some q ->
  oracle ctx (S (S n)) get_answer
    [(Some "question", q); (Some "context", r)] = Ok p3 ->
  p3 !! "answer" = Some ans ->
  forward oracle ag query n = (Ok ans, [reasoner; enhance_query; get_answer]).
Proof.
  intros Hclass ctx H1 Hkw Hr H2 Hq H3 Hans. subst ctx. unfold forward.
  destruct Hclass as [Hc|Hc]; rewrite Hc in *; cbn [uses_own_lm] in *;
    repeat forward_step; reflexivity.
Qed.

(** [SecurityAgent.forward] when its stage answers. *)
Lemma security_forward_run {LM : Type} (oracle : stage_oracle LM)
    (ag : Agent LM) (query : string) (n : nat) (p : Prediction)
    (v : fvalue) :
  agent_class ag = SecurityAgent ->
  oracle (Some (agent_lm ag)) n security_checker [(Some "query", FStr query)]
  = Ok p ->
  p !! "security_check" = Some v ->
  forward oracle ag query n = (Ok v, [security_checker]).
Proof.
  intros Hc H1 Hv. unfold forward. rewrite Hc.
  repeat forward_step; reflexivity.
Qed.

End ForwardRuns.

(** ** Persona pipelines *)

Module Pipelines.

(** C5, as stated, fails: the second stage of [BaseAgent] declares the
    input [query], which the first stage does not return, and its third
    stage takes [question] and [context], which the second does not
    return; yet the constructor builds the agent with these three stages
    and raises nothing, whenever the client is bound. *)
Lemma base_agent_built_without_field_check :
  outputs_feed_next (stages (pipeline_of BaseAgent)) = false
  /\ "query" ∈ stage_inputs enhance_query
  /\ ("query" ∉ stage_outputs reasoner)
  /\ (forall (LM : Type) (LM_init : LM_args -> result LM) (lm : LM),
        get_lm LM_init (Management_init sample_loc) sample_store = Ok lm ->
        exists ag,
          Agent_init LM_init BaseAgent sample_loc sample_store = Ok ag
          /\ agent_stages ag = stages (pipeline_of BaseAgent))
  /\ exists ag,
       Agent_init storing_client BaseAgent sample_loc sample_store = Ok ag
       /\ agent_stages ag = stages (pipeline_of BaseAgent).
Proof.
  split; [reflexivity|]. split; [|split; [|split]].
  - apply (bool_decide_unpack _). vm_compute. exact I.
  - apply (bool_decide_unpack _). vm_compute. exact I.
  - intros LM LM_init lm Hlm. unfold Agent_init. rewrite Hlm.
    eexists. split; reflexivity.
  - eexists. split; reflexivity.
Qed.

(** C5, amended.  No pipeline is checked when it is constructed.  The
    declared outputs of each stage contain the declared inputs of the next
    in [SecurityAgent] only, which has one stage; the constructor of every
    class fails exactly when binding the client fails, with the same
    exception, and otherwise returns an agent that holds the bound client
    and the stages of its class, whether they satisfy the condition or
    not.  The inputs are supplied when [forward] runs: in [BaseAgent]
    and [BaseAgentSync] every declared input of a stage is passed by
    keyword, [query] from the argument of [forward], [keywords],
    [reasoning] and [context] from the result of the first stage,
    [question] from the result of the second, and the [answer] of the
    third stage is returned. *)
Theorem forward_feeds_each_stage :
  (forall c : AgentClass,
     outputs_feed_next (stages (pipeline_of c)) = true <->
     c = SecurityAgent)
  /\ (forall (LM : Type) (LM_init : LM_args -> result LM) (c : AgentClass)
             (md : loc) (h : store),
      (forall e, Agent_init LM_init c md h = Raise e <->
                 get_lm LM_init (Management_init md) h = Raise e)
      /\ (forall lm, get_lm LM_init (Management_init md) h = Ok lm ->
           exists ag, Agent_init LM_init c md h = Ok ag)
      /\ (forall ag, Agent_init LM_init c md h = Ok ag ->
           agent_class ag = c
           /\ get_lm LM_init (Management_init md) h = Ok (agent_lm ag)
           /\ agent_stages ag = stages (pipeline_of c)
           /\ (outputs_feed_next (agent_stages ag) = true <->
               c = SecurityAgent)))
  /\ (forall (LM : Type) (oracle : stage_oracle LM) (ag : Agent LM)
             (query : string) (n : nat) (p1 p2 p3 : Prediction)
             (kw r q ans : fvalue),
      agent_class ag = BaseAgent \/ agent_class ag = BaseAgentSync ->
      let ctx := if uses_own_lm (agent_class ag) then Some (agent_lm ag)
                 else None in
      oracle ctx n reasoner [(Some "query", FStr query)] = Ok p1 ->
      p1 !! "keywords" = Some kw ->
      p1 !! "reasoning" = Some r ->
      oracle ctx (S n) enhance_query
        [(Some "query", FStr query); (Some "keywords", kw);
         (Some "reasoning", r)] = Ok p2 ->
      p2 !! "enhanced_query" = Some q ->
      oracle ctx (S (S n)) get_answer
        [(Some "question", q); (Some "context", r)] = Ok p3 ->
      p3 !! "answer" = Some ans ->
      forward oracle ag query n
      = (Ok ans, [reasoner; enhance_query; get_answer])).
Proof.
  assert (forall c : AgentClass,
            outputs_feed_next (stages (pipeline_of c)) = true <->
            c = SecurityAgent) as Hfeed.
  { intros c. split.
    - destruct c; vm_compute; congruence.
    - intros ->. vm_compute. reflexivity. }
  split; [exact Hfeed|]. split.
  - intros LM LM_init c md h. unfold Agent_init.
    destruct (get_lm LM_init (Management_init md) h) as [lm|e0]; cbn.
    + split; [split; discriminate|]. split; [eauto|].
      intros ag [= <-]. cbn. auto.
    + split; [split; intros [= ->]; reflexivity|].
      split; discriminate.
  - intros LM oracle ag query n p1 p2 p3 kw r q ans.
    apply ForwardRuns.base_forward_run.
Qed.

Lemma forward_feeds_each_stage_witness :
  forward keyword_oracle (sample_agent BaseAgent) "why?" 0
  = (Ok (FStr "answer"), [reasoner; enhance_query; get_answer])
  /\ Agent_init storing_client BaseAgent sample_loc sample_store
     = Ok (sample_agent_at BaseAgent sample_loc).
Proof.
  destruct forward_feeds_each_stage as (_ & Hinit & Hrun).
  destruct (Hinit LM_args storing_client BaseAgent sample_loc sample_store)
    as (_ & Hbuilt & _).
  split.
  - apply (Hrun LM_args keyword_oracle (sample_agent BaseAgent) "why?" 0
             (list_to_map [("keywords", FStr "keywords");
                           ("reasoning", FStr "reasoning")])
             (list_to_map [("enhanced_query", FStr "enhanced_query")])
             (list_to_map [("answer", FStr "answer")])
             (FStr "keywords") (FStr "reasoning") (FStr "enhanced_query")
             (FStr "answer"));
      first [left; reflexivity | reflexivity].
  - destruct (Hbuilt (sample_client "openai/gpt-4o-mini") eq_refl)
      as [ag Hag].
    rewrite Hag. f_equal.
    assert (Ok ag = Ok (sample_agent_at BaseAgent sample_loc)) as [= ->];
      [rewrite <- Hag; reflexivity | reflexivity].
Defined.

End Pipelines.


(** ** More on [Management] *)

Module ConfigMore.

Import Config.



(** The value a list of assignments leaves in an attribute: that of the
    last assignment to it, if there is one. *)
Lemma apply_kwargs_lookup kwargs : forall m k,
  apply_kwargs m kwargs !! k =
  match last (filter (fun kv => kv.1 = k) kwargs) with
  | Some kv => Some kv.2
  | None => m !! k
  end.
Proof.
  induction kwargs as [|[k' v'] kwargs IH] using rev_ind; intros m k;
    [reflexivity|].
  rewrite apply_kwargs_snoc, filter_app.
  destruct (decide (k' = k)) as [->|Hne].
  - rewrite lookup_insert_eq.
    rewrite filter_cons_True by reflexivity. rewrite filter_nil.
    rewrite last_snoc. reflexivity.
  - rewrite lookup_insert_ne by assumption.
    rewrite filter_cons_False by (cbn; congruence).
    rewrite filter_nil, app_nil_r. apply IH.
Qed.

(** X2.  Repeating a call whose names are all fields changes nothing more:
    the second call returns and leaves the store of the first. *)
Theorem update_metadata_idempotent (cls : BaseModel) (self : Management)
    (h : store) (m : Metadata) (kwargs : list (string * pyvalue)) :
  h !! metadata self = Some m ->
  Metadata_instance m ->
  Forall (fun kv => kv.1 ∈ Metadata_fields) kwargs ->
  let R := update_metadata cls self kwargs h in
  R.1 = Ok tt /\ update_metadata cls self kwargs R.2 = (Ok tt, R.2).
Proof.
  intros Hh Hm Hall R. subst R.
  rewrite (update_metadata_valid _ _ _ m) by assumption. cbn [fst snd].
  split; [reflexivity|].
  rewrite (update_metadata_valid _ _ _ (apply_kwargs m kwargs)).
  - f_equal. rewrite insert_insert_eq. f_equal.
    apply map_eq. intros k. rewrite !apply_kwargs_lookup.
    destruct (last (filter (fun kv => kv.1 = k) kwargs)); reflexivity.
  - apply lookup_insert_eq.
  - apply apply_kwargs_instance; assumption.
  - assumption.
Qed.

Lemma update_metadata_idempotent_witness :
  sample_store !! metadata (Management_init sample_loc) = Some sample_metadata
  /\ update_metadata sample_BaseModel (Management_init sample_loc)
       [("temperature", VFloat (1 # 2))]
       (update_metadata sample_BaseModel (Management_init sample_loc)
          [("temperature", VFloat (1 # 2))] sample_store).2
     = (Ok tt,
        (update_metadata sample_BaseModel (Management_init sample_loc)
           [("temperature", VFloat (1 # 2))] sample_store).2).
Proof.
  split; [reflexivity|].
  apply (update_metadata_idempotent sample_BaseModel
           (Management_init sample_loc)
           sample_store sample_metadata [("temperature", VFloat (1 # 2))]).
  - reflexivity.
  - apply Metadata_new_instance.
  - apply (bool_decide_unpack _). vm_compute. exact I.
Defined.

(** X3.  The order of the keyword arguments does not matter when they all
    name fields: two calls whose arguments are the same up to order leave
    the same store. *)
Theorem update_metadata_order_irrelevant (cls : BaseModel)
    (self : Management) (h : store)
    (m : Metadata) (kwargs kwargs' : list (string * pyvalue)) :
  h !! metadata self = Some m ->
  Metadata_instance m ->
  NoDup (kwargs.*1) ->
  kwargs ≡ₚ kwargs' ->
  Forall (fun kv => kv.1 ∈ Metadata_fields) kwargs ->
  update_metadata cls self kwargs' h = update_metadata cls self kwargs h.
Proof.
  intros Hh Hm Hnd Hperm Hall.
  assert (Forall (fun kv => kv.1 ∈ Metadata_fields) kwargs') as Hall'
    by (rewrite <- Hperm; assumption).
  assert (NoDup (kwargs'.*1)) as Hnd' by (rewrite <- Hperm; assumption).
  rewrite !(update_metadata_valid _ _ _ m) by assumption.
  f_equal. f_equal. apply map_eq. intros k.
  destruct (decide (k ∈ kwargs.*1)) as [Hin|Hout].
  - apply list_elem_of_fmap in Hin as ([k' v] & -> & Hin). cbn [fst].
    rewrite (apply_kwargs_set kwargs m k' v) by assumption.
    apply apply_kwargs_set; [assumption|]. rewrite <- Hperm. assumption.
  - rewrite !apply_kwargs_other; [reflexivity|assumption|].
    rewrite <- Hperm. assumption.
Qed.

Lemma update_metadata_order_irrelevant_witness :
  sample_store !! metadata (Management_init sample_loc) = Some sample_metadata
  /\ update_metadata sample_BaseModel (Management_init sample_loc)
       [("max_tokens", VInt 2048); ("temperature", VFloat (1 # 2))]
       sample_store
     = update_metadata sample_BaseModel (Management_init sample_loc)
         [("temperature", VFloat (1 # 2)); ("max_tokens", VInt 2048)]
         sample_store.
Proof.
  split; [reflexivity|].
  apply (update_metadata_order_irrelevant sample_BaseModel
           (Management_init sample_loc) sample_store sample_metadata).
  - reflexivity.
  - apply Metadata_new_instance.
  - apply (bool_decide_unpack _). vm_compute. exact I.
  - apply perm_swap.
  - apply (bool_decide_unpack _). vm_compute. exact I.
Defined.

(** The binding when the provider attribute holds a member. *)
Lemma get_lm_member {LM : Type} (LM_init : LM_args -> result LM) self h m p :
  h !! metadata self = Some m ->
  Metadata_instance m ->
  m !! "provider" = Some (VProvider p) ->
  get_lm LM_init self h = LM_init (lm_args_of m p).
Proof.
  intros Hh Hm Hp.
  destruct (get_lm_run LM_init self h m Hh Hm)
    as (model & mt & t & pv & ak & bu & H1 & H2 & H3 & H4 & H5 & H6 & Hrun).
  rewrite Hrun. rewrite Hp in H4. injection H4 as <-.
  unfold lm_args_of. rewrite H1, H2, H3, H5, H6. reflexivity.
Qed.

Lemma update_one_field cls self h m key value :
  h !! metadata self = Some m ->
  Metadata_instance m ->
  key ∈ Metadata_fields ->
  update_metadata cls self [(key, value)] h =
  (Ok tt, <[metadata self := <[key := value]> m]> h).
Proof.
  intros Hh Hm Hkey.
  rewrite (update_metadata_valid _ _ _ m); try assumption; [reflexivity|].
  apply Forall_singleton. exact Hkey.
Qed.

(** X4.  A client bound after an update is built from the updated
    attributes: after [update_metadata(key=value)] on a field other than
    the provider, [get_lm] hands the constructor the old arguments with
    that one replaced.  The field [tokens] is never handed over: updating
    it leaves the binding as it was. *)
Theorem get_lm_after_update {LM : Type} (LM_init : LM_args -> result LM)
    (cls : BaseModel) (self : Management) (h : store) (m : Metadata)
    (p : ProviderType) (key : string) (value : pyvalue) :
  h !! metadata self = Some m ->
  Metadata_instance m ->
  m !! "provider" = Some (VProvider p) ->
  key ∈ Metadata_fields ->
  key <> "provider" ->
  let h' := (update_metadata cls self [(key, value)] h).2 in
  let old := lm_args_of m p in
  get_lm LM_init self h' =
    LM_init
      {| lm_model := if decide (key = "model") then value else lm_model old;
         lm_max_tokens :=
           if decide (key = "max_tokens") then value else lm_max_tokens old;
         lm_temperature :=
           if decide (key = "temperature") then value
           else lm_temperature old;
         lm_provider := lm_provider old;
         lm_api_key :=
           if decide (key = "api_key") then value else lm_api_key old;
         lm_base_url :=
           if decide (key = "base_url") then value else lm_base_url old |}
  /\ (key = "tokens" -> get_lm LM_init self h' = get_lm LM_init self h).
Proof.
  intros Hh Hm Hp Hkey Hne h' old. subst h' old.
  rewrite (update_one_field _ _ _ m) by assumption. cbn [snd].
  assert (get_lm LM_init self (<[metadata self := <[key := value]> m]> h)
          = LM_init (lm_args_of (<[key := value]> m) p)) as Hnew.
  { apply get_lm_member.
    - apply lookup_insert_eq.
    - apply insert_instance; assumption.
    - rewrite lookup_insert_ne by assumption. exact Hp. }
  rewrite Hnew. split.
  - f_equal. unfold lm_args_of. cbn [lm_model lm_max_tokens lm_temperature
      lm_provider lm_api_key lm_base_url].
    f_equal; try reflexivity;
      (case_decide as Hk;
       [rewrite Hk, lookup_insert_eq; reflexivity
       |rewrite lookup_insert_ne by assumption; reflexivity]).
  - intros ->. rewrite (get_lm_member LM_init self h m p) by assumption.
    f_equal. unfold lm_args_of.
    rewrite !lookup_insert_ne by discriminate. reflexivity.
Qed.

Lemma get_lm_after_update_witness :
  sample_store !! metadata (Management_init sample_loc) = Some sample_metadata
  /\ get_lm storing_client (Management_init sample_loc)
       (update_metadata sample_BaseModel (Management_init sample_loc)
          [("temperature", VFloat (1 # 2))] sample_store).2
     = Ok {| lm_model := VStr "openai/gpt-4o-mini";
             lm_max_tokens := VInt 1024;
             lm_temperature := VFloat (1 # 2);
             lm_provider := VStr "openai";
             lm_api_key := VNone; lm_base_url := VNone |}.
Proof.
  split; [reflexivity|].
  destruct (get_lm_after_update storing_client sample_BaseModel
              (Management_init sample_loc)
              sample_store sample_metadata OPENAI "temperature"
              (VFloat (1 # 2)))
    as (Hnew & _).
  - reflexivity.
  - apply Metadata_new_instance.
  - reflexivity.
  - apply (bool_decide_unpack _). vm_compute. exact I.
  - discriminate.
  - rewrite Hnew. reflexivity.
Defined.

(** X5.  [update_metadata] does not look at the value it assigns: the
    provider attribute can be set to anything, and the call returns.  When
    the value has no [.value] attribute -- [None], a number, a [str] such
    as "openai" -- every later [get_lm] on the object raises an
    AttributeError, whatever the client's constructor.  When it has one,
    as a member of another [Enum] has, [get_lm] hands that [.value] to
    the constructor as the provider, with the other attributes. *)
Theorem provider_update_unchecked {LM : Type}
    (LM_init : LM_args -> result LM) (cls : BaseModel) (self : Management)
    (h : store) (m : Metadata) (value : pyvalue) :
  h !! metadata self = Some m ->
  Metadata_instance m ->
  let R := update_metadata cls self [("provider", value)] h in
  R.1 = Ok tt
  /\ (has_value_attr value = false ->
      exists e, get_lm LM_init self R.2 = Raise e
                /\ exn_class e = "AttributeError")
  /\ (forall x, enum_value value = Ok x ->
      get_lm LM_init self R.2 =
      LM_init {| lm_model := default VNone (m !! "model");
                 lm_max_tokens := default VNone (m !! "max_tokens");
                 lm_temperature := default VNone (m !! "temperature");
                 lm_provider := x;
                 lm_api_key := default VNone (m !! "api_key");
                 lm_base_url := default VNone (m !! "base_url") |}).
Proof.
  intros Hh Hm R. subst R.
  assert ("provider" ∈ Metadata_fields) as Hfield
    by (apply (bool_decide_unpack _); vm_compute; exact I).
  rewrite (update_one_field _ _ _ m) by assumption. cbn [fst snd].
  split; [reflexivity|].
  destruct (get_lm_run LM_init self
              (<[metadata self := <["provider" := value]> m]> h)
              (<["provider" := value]> m))
    as (model & mt & t & pv & ak & bu & H1 & H2 & H3 & H4 & H5 & H6 & Hrun).
  - apply lookup_insert_eq.
  - apply insert_instance; assumption.
  - rewrite lookup_insert_eq in H4. injection H4 as <-.
    rewrite lookup_insert_ne in H1, H2, H3, H5, H6 by discriminate.
    rewrite Hrun. split.
    + intros Hnone.
      destruct (enum_value_without_attr value Hnone) as (e & -> & He).
      exists e. split; [reflexivity | exact He].
    + intros x ->. rewrite H1, H2, H3, H5, H6. reflexivity.
Qed.

Lemma provider_update_unchecked_witness :
  sample_store !! metadata (Management_init sample_loc) = Some sample_metadata
  /\ (exists e,
       get_lm storing_client (Management_init sample_loc)
         (update_metadata sample_BaseModel (Management_init sample_loc)
            [("provider", VStr "openai")] sample_store).2 = Raise e
       /\ exn_class e = "AttributeError")
  /\ get_lm storing_client (Management_init sample_loc)
       (update_metadata sample_BaseModel (Management_init sample_loc)
          [("provider", PersonaType_ANALYST)] sample_store).2
     = Ok {| lm_model := VStr "openai/gpt-4o-mini";
             lm_max_tokens := VInt 1024;
             lm_temperature := VFloat (7 # 10);
             lm_provider := VStr "analyst";
             lm_api_key := VNone; lm_base_url := VNone |}.
Proof.
  split; [reflexivity|]. split.
  - destruct (provider_update_unchecked storing_client sample_BaseModel
                (Management_init sample_loc)
                sample_store sample_metadata (VStr "openai"))
      as (_ & Hraise & _).
    + reflexivity.
    + apply Metadata_new_instance.
    + apply Hraise. reflexivity.
  - destruct (provider_update_unchecked storing_client sample_BaseModel
                (Management_init sample_loc)
                sample_store sample_metadata PersonaType_ANALYST)
      as (_ & _ & Hbound).
    + reflexivity.
    + apply Metadata_new_instance.
    + rewrite (Hbound (VStr "analyst") eq_refl). reflexivity.
Defined.

(** X15.  An agent's client is fixed when the agent is constructed: it is
    what the constructor made of the attributes at that time.  A later
    [update_metadata] through any manager of the same object changes the
    attributes that the agent's [metadata] reference shows, not the client
    the agent holds; only a new binding sees the update. *)
Theorem agent_client_is_fixed_at_construction {LM : Type}
    (LM_init : LM_args -> result LM) (cls : BaseModel) (c : AgentClass)
    (md : loc) (h : store)
    (m : Metadata) (p : ProviderType) (ag : Agent LM)
    (kwargs : list (string * pyvalue)) :
  h !! md = Some m ->
  Metadata_instance m ->
  m !! "provider" = Some (VProvider p) ->
  Forall (fun kv => kv.1 ∈ Metadata_fields /\ kv.1 <> "provider") kwargs ->
  Agent_init LM_init c md h = Ok ag ->
  let h' := (update_metadata cls (Management_init md) kwargs h).2 in
  LM_init (lm_args_of m p) = Ok (agent_lm ag)
  /\ (keeps_metadata c = true -> agent_metadata ag = Some md)
  /\ h' !! md = Some (apply_kwargs m kwargs)
  /\ get_lm LM_init (Management_init md) h'
     = LM_init (lm_args_of (apply_kwargs m kwargs) p).
Proof.
  intros Hh Hm Hp Hall Hinit h'. subst h'.
  assert (Forall (fun kv => kv.1 ∈ Metadata_fields) kwargs) as Hfields
    by (eapply Forall_impl; [exact Hall|]; intros kv [? _]; assumption).
  rewrite (update_metadata_valid _ _ _ m) by assumption. cbn [snd].
  unfold Agent_init in Hinit.
  rewrite (get_lm_member LM_init (Management_init md) h m p) in Hinit
    by assumption.
  destruct (LM_init (lm_args_of m p)) as [lm|e] eqn:Hlm;
    cbn in Hinit; [|discriminate]. injection Hinit as <-.
  cbn [agent_lm agent_metadata]. split; [reflexivity|].
  split; [intros ->; reflexivity|].
  split; [apply lookup_insert_eq|].
  apply get_lm_member.
  - apply lookup_insert_eq.
  - apply apply_kwargs_instance; assumption.
  - rewrite apply_kwargs_other; [exact Hp|].
    intros ([k v] & Hk & Hin)%list_elem_of_fmap. cbn in Hk. subst k.
    rewrite Forall_forall in Hall. destruct (Hall _ Hin) as [_ Hne].
    apply Hne. reflexivity.
Qed.

Lemma agent_client_is_fixed_at_construction_witness :
  sample_store !! sample_loc = Some sample_metadata
  /\ Agent_init storing_client BaseAgent sample_loc sample_store
     = Ok (sample_agent_at BaseAgent sample_loc)
  /\ get_lm storing_client (Management_init sample_loc)
       (update_metadata sample_BaseModel (Management_init sample_loc)
          [("model", VStr "gpt-4o")] sample_store).2
     = storing_client
         (lm_args_of
            (apply_kwargs sample_metadata [("model", VStr "gpt-4o")])
            OPENAI).
Proof.
  split; [reflexivity|]. split; [reflexivity|].
  destruct (agent_client_is_fixed_at_construction storing_client
              sample_BaseModel BaseAgent
              sample_loc sample_store sample_metadata OPENAI
              (sample_agent_at BaseAgent sample_loc)
              [("model", VStr "gpt-4o")])
    as (_ & _ & _ & Hnew).
  - reflexivity.
  - apply Metadata_new_instance.
  - reflexivity.
  - apply Forall_singleton. split; [|discriminate].
    apply (bool_decide_unpack _). vm_compute. exact I.
  - reflexivity.
  - exact Hnew.
Defined.

End ConfigMore.

(** ** More on the flow *)

Module FlowMore.

Import Retry.

(** The first four answers of the agent from call [n] on: one of them is a
    returned string, or all four are exceptions. *)
Lemma agent_cases (a : agent) msg n :
  (exists k v, k <= 3
     /\ (forall i, i < k -> exists e, a (n + i) msg = Raises e)
     /\ a (n + k) msg = Returns v)
  \/ (forall i, i <= 3 -> exists e, a (n + i) msg = Raises e).
Proof.
  destruct (a (n + 0) msg) as [v0|e0] eqn:H0;
    [left; exists 0, v0; split; [lia|]; split; [intros; lia | exact H0]|].
  destruct (a (n + 1) msg) as [v1|e1] eqn:H1.
  { left. exists 1, v1. split; [lia|]. split; [|exact H1].
    intros i Hi. assert (i = 0) as -> by lia. eauto. }
  destruct (a (n + 2) msg) as [v2|e2] eqn:H2.
  { left. exists 2, v2. split; [lia|]. split; [|exact H2].
    intros i Hi. destruct i as [|[|i]]; [eauto | eauto | lia]. }
  destruct (a (n + 3) msg) as [v3|e3] eqn:H3.
  { left. exists 3, v3. split; [lia|]. split; [|exact H3].
    intros i Hi. destruct i as [|[|[|i]]]; [eauto | eauto | eauto | lia]. }
  right. intros i Hi.
  destruct i as [|[|[|[|i]]]]; [eauto | eauto | eauto | eauto | lia].
Qed.

Lemma security_check_cases a msg n :
  let C := security_check a msg n in
  (exists k v, k <= 3
     /\ (forall i, i < k -> exists e, a (n + i) msg = Raises e)
     /\ a (n + k) msg = Returns v
     /\ outcome C = Ok (String.eqb (lower v) "passed")
     /\ calls_after C = S (n + k)
     /\ attempts "security_check" (events C) = S k
     /\ sleeps (events C) = replicate k 5)
  \/ ((forall i, i <= 3 -> exists e, a (n + i) msg = Raises e)
      /\ (exists e, a (n + 3) msg = Raises e /\ outcome C = Raise e)
      /\ calls_after C = n + 4
      /\ attempts "security_check" (events C) = 4
      /\ sleeps (events C) = [5; 5; 5]).
Proof.
  destruct (agent_cases a msg n) as [(k & v & Hk & Hraise & Hret)|Hraise].
  - left. exists k, v.
    destruct (security_check_succeeds a msg n k v Hk Hraise Hret)
      as (? & ? & ? & ?). auto 10.
  - right. destruct (security_check_exhausted a msg n Hraise)
      as (? & ? & ? & ?). auto 10.
Qed.

Lemma get_response_cases a msg n :
  let G := get_response a msg n in
  (exists k v, k <= 3
     /\ (forall i, i < k -> exists e, a (n + i) msg = Raises e)
     /\ a (n + k) msg = Returns v
     /\ outcome G = Ok v
     /\ calls_after G = S (n + k)
     /\ attempts "get_response" (events G) = S k
     /\ sleeps (events G) = replicate k 5)
  \/ ((forall i, i <= 3 -> exists e, a (n + i) msg = Raises e)
      /\ (exists e, a (n + 3) msg = Raises e /\ outcome G = Raise e)
      /\ calls_after G = n + 4
      /\ attempts "get_response" (events G) = 4
      /\ sleeps (events G) = [5; 5; 5]).
Proof.
  destruct (agent_cases a msg n) as [(k & v & Hk & Hraise & Hret)|Hraise].
  - left. exists k, v.
    destruct (get_response_succeeds a msg n k v Hk Hraise Hret)
      as (? & ? & ? & ?). auto 10.
  - right. destruct (get_response_exhausted a msg n Hraise)
      as (? & ? & ? & ?). auto 10.
Qed.

Lemma security_check_no_response_run a msg n :
  attempts "get_response" (events (security_check a msg n)) = 0.
Proof.
  unfold security_check, task.
  apply (task_engine_other_task _ _ _ _ (security_check_fn_body a msg)).
  discriminate.
Qed.

Lemma get_response_no_security_run a msg n :
  attempts "security_check" (events (get_response a msg n)) = 0.
Proof.
  unfold get_response, task.
  apply (task_engine_other_task _ _ _ _ (get_response_fn_body a msg)).
  discriminate.
Qed.

(** X6.  In every run the security task comes first and the response task
    only after it: the events of the run are those of the security task
    followed by events that contain no run of the security task, the
    security task's events contain no run of the response task, and the
    response task is run only when the security task completed with
    [true]. *)
Theorem response_only_after_security_passed (a : agent) (msg : string)
    (n : nat) :
  let C := security_check a msg n in
  let F := sequential_chat_processing_flow a msg n in
  exists evs,
    F.2 = Info "Starting sequential chat processing flow"
            :: events C ++ evs
    /\ attempts "get_response" (events C) = 0
    /\ attempts "security_check" evs = 0
    /\ (outcome C <> Ok true -> evs = [] /\ attempts "get_response" F.2 = 0).
Proof.
  intros C F. subst C F. unfold sequential_chat_processing_flow.
  rewrite flow_fn_run. cbn zeta.
  pose proof (security_check_no_response_run a msg n) as Hnone.
  destruct (outcome (security_check a msg n)) as [[|]|e] eqn:Ho;
    cbn [fst snd events].
  - exists (events (get_response a msg
                      (calls_after (security_check a msg n)))).
    split; [reflexivity|]. split; [exact Hnone|].
    split; [apply get_response_no_security_run | congruence].
  - exists []. rewrite app_nil_r, attempts_Info. auto.
  - exists []. rewrite app_nil_r, attempts_Info. auto.
Qed.

Lemma agent_calls_app l1 l2 :
  agent_calls (l1 ++ l2) = agent_calls l1 ++ agent_calls l2.
Proof. apply omap_app. Qed.

(** The calls a task makes are consecutive, from the first free index. *)
Lemma task_engine_agent_calls {A} name d (fn : M A) :
  task_body fn ->
  (forall n, agent_calls (events (fn n)) = [n]) ->
  forall r c n,
    let R := task_engine name d fn r c n in
    n < calls_after R
    /\ agent_calls (events R) = seq n (calls_after R - n).
Proof.
  intros Hbody Hcalls. induction r as [|r IH]; intros c n R; subst R;
    rewrite task_engine_step.
  - destruct (outcome (fn n)); cbn [calls_after events];
      rewrite (body_calls _ Hbody);
      change (agent_calls (TaskRun name c :: events (fn n)))
        with (agent_calls (events (fn n)));
      rewrite Hcalls; replace (S n - n) with 1 by lia;
      (split; [lia|done]).
  - destruct (outcome (fn n)).
    + cbn [calls_after events]. rewrite (body_calls _ Hbody).
      change (agent_calls (TaskRun name c :: events (fn n)))
        with (agent_calls (events (fn n))).
      rewrite Hcalls. replace (S n - n) with 1 by lia. split; [lia|done].
    + cbn zeta. cbn [calls_after events]. rewrite (body_calls _ Hbody).
      destruct (IH (S c) (S n)) as [Hlt Htrace]. cbn zeta in Hlt, Htrace.
      split; [lia|].
      rewrite agent_calls_app.
      change (agent_calls (TaskRun name c :: events (fn n)))
        with (agent_calls (events (fn n))).
      change (agent_calls (Sleep d :: ?l)) with (agent_calls l).
      rewrite Hcalls, Htrace.
      replace (calls_after (task_engine name d fn r (S c) (S n)) - n)
        with (S (calls_after (task_engine name d fn r (S c) (S n)) - S n))
        by lia.
      reflexivity.
Qed.

Lemma security_check_agent_calls a msg n :
  let C := security_check a msg n in
  n < calls_after C /\ agent_calls (events C) = seq n (calls_after C - n).
Proof.
  apply (task_engine_agent_calls "security_check" 5 _
           (security_check_fn_body a msg)).
  intros k. rewrite security_check_fn_run. destruct (a k msg); reflexivity.
Qed.

Lemma get_response_agent_calls a msg n :
  let G := get_response a msg n in
  n < calls_after G /\ agent_calls (events G) = seq n (calls_after G - n).
Proof.
  apply (task_engine_agent_calls "get_response" 5 _
           (get_response_fn_body a msg)).
  intros k. rewrite get_response_fn_run. destruct (a k msg); reflexivity.
Qed.

Lemma security_check_bounds a msg n :
  let C := security_check a msg n in
  calls_after C <= n + 4
  /\ attempts "security_check" (events C) <= 4
  /\ sum_list (sleeps (events C)) <= 15.
Proof.
  destruct (security_check_cases a msg n)
    as [(k & v & Hk & _ & _ & _ & Hc & Ha & Hs)|(_ & _ & Hc & Ha & Hs)];
    cbn zeta; rewrite Hc, Ha, Hs, ?sum_list_replicate; cbn; lia.
Qed.

Lemma get_response_bounds a msg n :
  let G := get_response a msg n in
  calls_after G <= n + 4
  /\ attempts "get_response" (events G) <= 4
  /\ sum_list (sleeps (events G)) <= 15.
Proof.
  destruct (get_response_cases a msg n)
    as [(k & v & Hk & _ & _ & _ & Hc & Ha & Hs)|(_ & _ & Hc & Ha & Hs)];
    cbn zeta; rewrite Hc, Ha, Hs, ?sum_list_replicate; cbn; lia.
Qed.

(** X7.  No run of the flow, whatever the agent does, calls the agent more
    than 8 times, runs a task more than 4 times, or waits more than 30
    seconds in all between runs; the calls it makes are consecutive. *)
Theorem flow_run_bounded (a : agent) (msg : string) (n : nat) :
  let R := sequential_chat_processing_flow_fn a msg n in
  n < calls_after R <= n + 8
  /\ agent_calls (events R) = seq n (calls_after R - n)
  /\ attempts "security_check" (events R) <= 4
  /\ attempts "get_response" (events R) <= 4
  /\ sum_list (sleeps (events R)) <= 30.
Proof.
  intros R. subst R. rewrite flow_fn_run. cbn zeta.
  destruct (security_check_bounds a msg n) as (HCc & HCa & HCs).
  destruct (security_check_agent_calls a msg n) as (HClt & HCt).
  pose proof (security_check_no_response_run a msg n) as HCn.
  cbn zeta in *.
  set (C := security_check a msg n) in *.
  destruct (outcome C) as [[|]|e]; cbn [calls_after events].
  - destruct (get_response_bounds a msg (calls_after C)) as (HGc & HGa & HGs).
    destruct (get_response_agent_calls a msg (calls_after C))
      as (HGlt & HGt).
    pose proof (get_response_no_security_run a msg (calls_after C)) as HGn.
    cbn zeta in *.
    set (G := get_response a msg (calls_after C)) in *.
    rewrite !attempts_Info, sleeps_Info, !attempts_app, sleeps_app,
      sum_list_with_app, HCn, HGn.
    change (agent_calls (Info ?s :: ?l)) with (agent_calls l).
    rewrite agent_calls_app, HCt, HGt.
    repeat split; try lia.
    replace (calls_after G - n)
      with ((calls_after C - n) + (calls_after G - calls_after C)) by lia.
    rewrite seq_app. do 2 f_equal. lia.
  - rewrite !attempts_Info, sleeps_Info, HCn.
    change (agent_calls (Info ?s :: ?l)) with (agent_calls l).
    repeat split; try lia. exact HCt.
  - rewrite !attempts_Info, sleeps_Info, HCn.
    change (agent_calls (Info ?s :: ?l)) with (agent_calls l).
    repeat split; try lia. exact HCt.
Qed.

(** X8.  A run in which the security task accepts the message: the agent
    answers within four calls, after exceptions only, with a spelling of
    "passed".  The response task then calls the same agent again, and the
    run is decided by those calls: it completes with the agent's first
    answer within four further calls, returned as it is, and fails with the
    fourth exception when the agent raises on all four. *)
Theorem accepted_run_outcome (a : agent) (msg : string) (n k : nat)
    (v : string) :
  k <= 3 ->
  (forall i, i < k -> exists e, a (n + i) msg = Raises e) ->
  a (n + k) msg = Returns v ->
  lower v = "passed" ->
  let F := sequential_chat_processing_flow a msg n in
  attempts "security_check" F.2 = S k
  /\ (forall j w,
        j <= 3 ->
        (forall i, i < j -> exists e, a (S (n + k) + i) msg = Raises e) ->
        a (S (n + k) + j) msg = Returns w ->
        F.1 = Completed w /\ attempts "get_response" F.2 = S j)
  /\ (forall e,
        (forall i, i <= 3 -> exists e', a (S (n + k) + i) msg = Raises e') ->
        a (S (n + k) + 3) msg = Raises e ->
        F.1 = Failed e /\ attempts "get_response" F.2 = 4).
Proof.
  intros Hk Hraise Hret Hpassed F. subst F.
  unfold sequential_chat_processing_flow. rewrite flow_fn_run. cbn zeta.
  destruct (security_check_succeeds a msg n k v Hk Hraise Hret)
    as (Ho & Hc & Ha & _).
  pose proof (security_check_no_response_run a msg n) as Hnone.
  pose proof (get_response_no_security_run a msg (S (n + k))) as Hnone'.
  cbn zeta in *. rewrite Hpassed in Ho.
  change (String.eqb "passed" "passed") with true in Ho.
  rewrite Ho, Hc. cbn [fst snd events outcome].
  rewrite !attempts_Info, !attempts_app, Ha, Hnone, Hnone'.
  split; [lia|]. split.
  - intros j w Hj Hraise' Hret'.
    destruct (get_response_succeeds a msg (S (n + k)) j w Hj Hraise' Hret')
      as (Ho' & _ & Ha' & _).
    cbn zeta in *. rewrite Ho', Ha'. split; reflexivity.
  - intros e Hraise' He.
    destruct (get_response_exhausted a msg (S (n + k)) Hraise')
      as ((e' & He' & Ho') & _ & Ha' & _).
    cbn zeta in *. rewrite He in He'. injection He' as <-.
    rewrite Ho', Ha'. split; reflexivity.
Qed.

Lemma accepted_run_outcome_witness :
  raises_then_returns 2 transient "PASSED" (0 + 2) "hello" = Returns "PASSED"
  /\ (sequential_chat_processing_flow
        (raises_then_returns 2 transient "PASSED") "hello" 0).1
     = Completed "PASSED"
  /\ attempts "security_check"
       (sequential_chat_processing_flow
          (raises_then_returns 2 transient "PASSED") "hello" 0).2 = 3
  /\ attempts "get_response"
       (sequential_chat_processing_flow
          (raises_then_returns 2 transient "PASSED") "hello" 0).2 = 1.
Proof.
  split; [reflexivity|].
  destruct (accepted_run_outcome (raises_then_returns 2 transient "PASSED")
              "hello" 0 2 "PASSED")
    as (Hsec & Hdone & _).
  - lia.
  - intros i Hi. exists transient.
    destruct i as [|[|i]]; [reflexivity | reflexivity | lia].
  - reflexivity.
  - reflexivity.
  - destruct (Hdone 0 "PASSED") as (Hout & Hresp).
    + lia.
    + intros i Hi. lia.
    + reflexivity.
    + split; [exact Hout|]. split; [exact Hsec | exact Hresp].
Defined.

(** X9.  Both tasks call the one agent on the one message.  So when the
    agent's answer to the message does not change from call to call, the
    run fails with the agent's exception if it raises, fails with
    [ValueError("Security check failed")] if its answer is not accepted,
    and otherwise completes with that very answer: a completed run then
    returns a spelling of "passed". *)
Theorem constant_agent_run (a : agent) (msg : string) (n : nat) :
  (forall i j, a i msg = a j msg) ->
  let F := sequential_chat_processing_flow a msg n in
  match a n msg with
  | Raises e => F.1 = Failed e
  | Returns v =>
      if String.eqb (lower v) "passed"
      then F.1 = Completed v
      else F.1 = Failed (ValueError "Security check failed")
  end
  /\ (forall w, F.1 = Completed w -> lower w = "passed").
Proof.
  intros Hconst F.
  assert (match a n msg with
          | Raises e => F.1 = Failed e
          | Returns v =>
              if String.eqb (lower v) "passed"
              then F.1 = Completed v
              else F.1 = Failed (ValueError "Security check failed")
          end) as Hrun.
  { subst F. unfold sequential_chat_processing_flow.
    rewrite flow_fn_run. cbn zeta.
    destruct (a n msg) as [v|e] eqn:Han.
    - destruct (security_check_succeeds a msg n 0 v)
        as (Ho & Hc & _); [lia | intros; lia | |].
      { rewrite Nat.add_0_r. exact Han. }
      rewrite Ho, Hc.
      destruct (String.eqb (lower v) "passed"); [|reflexivity].
      destruct (get_response_succeeds a msg (S (n + 0)) 0 v)
        as (Ho' & _); [lia | intros; lia | |].
      { rewrite (Hconst _ n). exact Han. }
      rewrite Ho'. reflexivity.
    - destruct (security_check_exhausted a msg n) as ((e' & He' & Ho) & _).
      { intros i _. exists e. rewrite (Hconst _ n). exact Han. }
      rewrite (Hconst _ n), Han in He'. injection He' as <-.
      rewrite Ho. reflexivity. }
  split; [exact Hrun|].
  intros w Hw. destruct (a n msg) as [v|e]; [|congruence].
  destruct (String.eqb_spec (lower v) "passed") as [Heq|Hne];
    congruence.
Qed.

Lemma constant_agent_run_witness :
  (forall i j, always (Returns "Passed") i "hello"
               = always (Returns "Passed") j "hello")
  /\ (sequential_chat_processing_flow (always (Returns "Passed")) "hello" 0).1
     = Completed "Passed".
Proof.
  split; [reflexivity|].
  destruct (constant_agent_run (always (Returns "Passed")) "hello" 0
              (fun _ _ => eq_refl)) as (Hrun & _).
  exact Hrun.
Defined.

End FlowMore.


(** ** [forward] *)

Module ForwardFacts.

Import ForwardRuns.

Lemma keyword_oracle_answers {LM : Type} :
  answers_keyword_calls (@keyword_oracle LM).
Proof.
  intros ctx k st args Hargs. unfold keyword_oracle.
  assert (forallb (fun a : bound_arg => bool_decide (is_Some a.1)) args
          = true) as ->.
  { induction Hargs as [|a args Ha Hargs IH]; [reflexivity|].
    cbn. rewrite IH, bool_decide_eq_true_2 by assumption. reflexivity. }
  eexists. split; [reflexivity|].
  intros f Hf.
  destruct (list_to_map (M := gmap string fvalue)
              (map (fun f => (f, FStr f)) (output_fields (stage_signature st)))
              !! f) eqn:Hlook; [eauto|].
  apply not_elem_of_list_to_map_2 in Hlook. destruct Hlook.
  change (map ?g ?l) with (g <$> l). rewrite <- list_fmap_compose.
  cbn. rewrite list_fmap_id. exact Hf.
Qed.

Ltac keyword_args :=
  repeat (apply List.Forall_cons; [cbn; eauto|]); apply List.Forall_nil.

Ltac declared_output :=
  apply (bool_decide_unpack _); vm_compute; exact I.

(** X12.  In the classes whose [forward] passes every argument by keyword
    -- [BaseAgent], [BaseAgentSync] and [SecurityAgent] -- and with a
    language model that answers every such call with the declared output
    fields, [forward] raises nothing.  Every stage is invoked once, in
    program order, with the query and with the fields read from the
    predictions this run has received, and the value returned is the
    field read from the prediction of the last of these calls. *)
Theorem forward_returns {LM : Type} (oracle : stage_oracle LM)
    (ag : Agent LM) (query : string) (n : nat) :
  answers_keyword_calls oracle ->
  let ctx := if uses_own_lm (agent_class ag) then Some (agent_lm ag)
             else None in
  let R := forward oracle ag query n in
  (agent_class ag = BaseAgent \/ agent_class ag = BaseAgentSync ->
   exists p1 p2 p3 kw r q ans,
     oracle ctx n reasoner [(Some "query", FStr query)] = Ok p1
     /\ p1 !! "keywords" = Some kw
     /\ p1 !! "reasoning" = Some r
     /\ oracle ctx (S n) enhance_query
          [(Some "query", FStr query); (Some "keywords", kw);
           (Some "reasoning", r)] = Ok p2
     /\ p2 !! "enhanced_query" = Some q
     /\ oracle ctx (S (S n)) get_answer
          [(Some "question", q); (Some "context", r)] = Ok p3
     /\ p3 !! "answer" = Some ans
     /\ R = (Ok ans, [reasoner; enhance_query; get_answer]))
  /\ (agent_class ag = SecurityAgent ->
      exists p v,
        oracle ctx n security_checker [(Some "query", FStr query)] = Ok p
        /\ p !! "security_check" = Some v
        /\ R = (Ok v, [security_checker])).
Proof.
  intros Horacle ctx R. unfold answers_keyword_calls in Horacle. split.
  - intros Hclass.
    destruct (Horacle ctx n reasoner [(Some "query", FStr query)])
      as (p1 & H1 & Hf1); [keyword_args|].
    destruct (Hf1 "keywords") as [kw Hkw]; [declared_output|].
    destruct (Hf1 "reasoning") as [r Hr]; [declared_output|].
    destruct (Horacle ctx (S n) enhance_query
                [(Some "query", FStr query); (Some "keywords", kw);
                 (Some "reasoning", r)])
      as (p2 & H2 & Hf2); [keyword_args|].
    destruct (Hf2 "enhanced_query") as [q Hq]; [declared_output|].
    destruct (Horacle ctx (S (S n)) get_answer
                [(Some "question", q); (Some "context", r)])
      as (p3 & H3 & Hf3); [keyword_args|].
    destruct (Hf3 "answer") as [ans Hans]; [declared_output|].
    exists p1, p2, p3, kw, r, q, ans. repeat (split; [assumption|]).
    apply (base_forward_run oracle ag query n p1 p2 p3 kw r q ans);
      assumption.
  - intros Hclass. subst ctx R. rewrite Hclass. cbn [uses_own_lm].
    destruct (Horacle (Some (agent_lm ag)) n security_checker
                [(Some "query", FStr query)])
      as (p & H1 & Hf); [keyword_args|].
    destruct (Hf "security_check") as [v Hv]; [declared_output|].
    exists p, v. repeat (split; [assumption|]).
    apply (security_forward_run oracle ag query n p v); assumption.
Qed.

Lemma forward_returns_witness :
  answers_keyword_calls (@keyword_oracle LM_args)
  /\ forward keyword_oracle (sample_agent BaseAgent) "why?" 0
     = (Ok (FStr "answer"), [reasoner; enhance_query; get_answer])
  /\ forward keyword_oracle (sample_agent SecurityAgent) "why?" 0
     = (Ok (FStr "security_check"), [security_checker]).
Proof.
  split; [apply keyword_oracle_answers|].
  destruct (forward_returns keyword_oracle (sample_agent BaseAgent) "why?" 0
              keyword_oracle_answers) as (Hbase & _).
  destruct (forward_returns keyword_oracle (sample_agent SecurityAgent)
              "why?" 0 keyword_oracle_answers) as (_ & Hsec).
  split.
  - destruct (Hbase (or_introl eq_refl))
      as (p1 & p2 & p3 & kw & r & q & ans & _ & _ & _ & _ & _ & H3 & Hans & HR).
    injection H3 as <-. injection Hans as <-. exact HR.
  - destruct (Hsec eq_refl) as (p & v & H1 & Hv & HR).
    injection H1 as <-. injection Hv as <-. exact HR.
Defined.

(** X13.  In the asynchronous advisor, creative, mentor, math and
    researcher agents the second stage is called as
    [await m.acall(..).field]: [forward] never returns a value.  The
    reasoner is invoked and no other stage; [forward] raises the
    reasoner's exception if it raises, and an AttributeError otherwise. *)
Theorem async_specialists_never_return {LM : Type}
    (oracle : stage_oracle LM) (ag : Agent LM) (query : string) (n : nat) :
  awaits_results (agent_class ag) = false ->
  let R := forward oracle ag query n in
  R.2 = [reasoner]
  /\ (forall v, R.1 <> Ok v)
  /\ match oracle None n reasoner [(None, FStr query)] with
     | Raise e => R.1 = Raise e
     | Ok _ => exists e, R.1 = Raise e /\ exn_class e = "AttributeError"
     end.
Proof.
  intros Hmodes R. subst R. unfold forward.
  destruct (agent_class ag); try discriminate Hmodes; clear Hmodes;
    cbn -[lookup]; unfold bound_arg;
    destruct (oracle None n reasoner [(None, FStr query)]) as [pred|e];
    cbn -[lookup]; list_lookups; unfold read_field;
    repeat (match goal with
            | |- context [pred !! ?f] => destruct (pred !! f)
            end; cbn -[lookup]);
    (split; [reflexivity|]); (split; [discriminate|]);
    try reflexivity; eexists; split; reflexivity.
Qed.

Lemma async_specialists_never_return_witness :
  awaits_results (agent_class (sample_agent AdvisorAgent)) = false
  /\ (forward keyword_oracle (sample_agent AdvisorAgent) "why?" 0).2
     = [reasoner]
  /\ forall v,
       (forward keyword_oracle (sample_agent AdvisorAgent) "why?" 0).1
       <> Ok v.
Proof.
  split; [reflexivity|].
  destruct (async_specialists_never_return keyword_oracle
              (sample_agent AdvisorAgent) "why?" 0 eq_refl)
    as (Hinv & Hnever & _).
  split; [exact Hinv | exact Hnever].
Defined.




End ForwardFacts.


(** ** More on the security gate *)

Module SecurityGateMore.

Import Retry SecurityGate.

Lemma string_length_append (s t : string) :
  String.length (s +:+ t) = String.length s + String.length t.
Proof.
  induction s as [|c s IH]; [reflexivity|].
  change (String c s +:+ t) with (String c (s +:+ t)).
  cbn [String.length]. rewrite IH. reflexivity.
Qed.

(** X10.  The check accepts an answer only if it is one of the spellings
    of "passed": six letters, each in either case.  An answer of any other
    length is rejected, so an accepted word followed or preceded by
    anything, a space or a line break for instance, gives [false]. *)
Theorem security_check_accepts_six_letters_only (a : agent) (msg : string)
    (n : nat) (v : string) :
  a n msg = Returns v ->
  let R := security_check a msg n in
  (outcome R = Ok true <->
   exists c1 c2 c3 c4 c5 c6,
     v = String c1 (String c2 (String c3 (String c4 (String c5
           (String c6 EmptyString)))))
     /\ either_case "p" c1 /\ either_case "a" c2 /\ either_case "s" c3
     /\ either_case "s" c4 /\ either_case "e" c5 /\ either_case "d" c6)
  /\ (String.length v <> 6 -> outcome R = Ok false)
  /\ (forall s t, v = s +:+ "passed" +:+ t -> s +:+ t <> "" ->
      outcome R = Ok false).
Proof.
  intros Hret R. subst R. rewrite (security_check_answered _ _ _ _ Hret).
  cbn [outcome].
  assert (lower v = "passed" -> String.length v = 6) as Hlen.
  { intros (c1 & c2 & c3 & c4 & c5 & c6 & -> & _)%lower_passed.
    reflexivity. }
  split; [|split].
  - rewrite <- lower_passed. split.
    + intros [= Heq]. apply String.eqb_eq. exact Heq.
    + intros Heq. f_equal. apply String.eqb_eq. exact Heq.
  - intros Hne. f_equal. apply String.eqb_neq. intros Heq. auto.
  - intros s t -> Hst. f_equal. apply String.eqb_neq. intros Heq.
    apply Hlen in Heq. rewrite !string_length_append in Heq.
    change (String.length "passed") with 6 in Heq.
    assert (String.length s = 0 /\ String.length t = 0) as [Hs Ht] by lia.
    destruct s; [|discriminate Hs]. destruct t; [|discriminate Ht].
    apply Hst. reflexivity.
Qed.

Lemma security_check_accepts_six_letters_only_witness :
  always (Returns "passed ") 0 "hello" = Returns "passed "
  /\ outcome (security_check (always (Returns "passed ")) "hello" 0) = Ok false.
Proof.
  split; [reflexivity|].
  destruct (security_check_accepts_six_letters_only
              (always (Returns "passed ")) "hello" 0 "passed " eq_refl) as (_ & Hlen & _).
  apply Hlen. discriminate.
Defined.

End SecurityGateMore.


(** ** The security middleware *)

Module MiddlewareFacts.

Lemma named_spec k kv : named k kv = true <-> kv.1 = k.
Proof. unfold named. apply String.eqb_eq. Qed.

Lemma named_other k k' v : k' <> k -> named k' (k, v) = false.
Proof. intros Hne. unfold named. cbn. apply String.eqb_neq. congruence. Qed.

Lemma filter_named_out k (h : raw_headers) :
  List.filter (named k) (List.filter (fun kv => negb (named k kv)) h) = [].
Proof.
  induction h as [|kv h IH]; [reflexivity|]. cbn.
  destruct (named k kv) eqn:Hn; cbn; [exact IH|]. rewrite Hn. exact IH.
Qed.

Lemma filter_named_keep k k' (h : raw_headers) :
  k' <> k ->
  List.filter (named k') (List.filter (fun kv => negb (named k kv)) h)
  = List.filter (named k') h.
Proof.
  intros Hne. induction h as [|kv h IH]; [reflexivity|]. cbn.
  destruct (named k kv) eqn:Hn; cbn.
  - apply named_spec in Hn.
    destruct (named k' kv) eqn:Hn'; [|exact IH].
    apply named_spec in Hn'. congruence.
  - destruct (named k' kv); [f_equal|]; exact IH.
Qed.

Lemma named_self k v : named k (k, v) = true.
Proof. apply named_spec. reflexivity. Qed.

Lemma replace_first_entries k v (h : raw_headers) :
  existsb (named k) h = true ->
  List.filter (named k) (replace_first k v h) = [(k, v)].
Proof.
  induction h as [|kv h IH]; [discriminate|].
  cbn [existsb replace_first].
  destruct (named k kv) eqn:Hn; cbn [List.filter orb].
  - intros _. rewrite named_self, filter_named_out. reflexivity.
  - intros Hex. rewrite Hn. apply IH, Hex.
Qed.

Lemma replace_first_others k k' v (h : raw_headers) :
  k' <> k ->
  List.filter (named k') (replace_first k v h) = List.filter (named k') h.
Proof.
  intros Hne. induction h as [|kv h IH]; [reflexivity|].
  cbn [replace_first].
  destruct (named k kv) eqn:Hn; cbn [List.filter].
  - rewrite (named_other k k' v Hne).
    apply named_spec in Hn.
    destruct (named k' kv) eqn:Hn'.
    + apply named_spec in Hn'. congruence.
    + apply filter_named_keep, Hne.
  - destruct (named k' kv); [f_equal|]; exact IH.
Qed.

Lemma filter_absent k (h : raw_headers) :
  existsb (named k) h = false -> List.filter (named k) h = [].
Proof.
  induction h as [|kv h IH]; [reflexivity|]. cbn.
  destruct (named k kv); [discriminate|]. exact IH.
Qed.

(** After [headers[key] = value] the name carries that value once. *)
Lemma header_set_entries key value h :
  List.filter (named (lower key)) (header_set key value h)
  = [(lower key, value)].
Proof.
  unfold header_set, header_contains.
  destruct (existsb (named (lower key)) h) eqn:Hex.
  - apply replace_first_entries, Hex.
  - rewrite List.filter_app, (filter_absent _ _ Hex).
    cbn [List.filter app]. rewrite named_self. reflexivity.
Qed.

(** and the other names are as before. *)
Lemma header_set_others key value k h :
  k <> lower key ->
  List.filter (named k) (header_set key value h) = List.filter (named k) h.
Proof.
  intros Hne. unfold header_set.
  destruct (header_contains key h).
  - apply replace_first_others, Hne.
  - rewrite List.filter_app. cbn [List.filter].
    rewrite (named_other _ _ _ Hne). apply app_nil_r.
Qed.

(** Setting a header that is there once, with that value, changes
    nothing. *)
Lemma header_set_same key value h :
  List.filter (named (lower key)) h = [(lower key, value)] ->
  header_set key value h = h.
Proof.
  intros Hone. unfold header_set, header_contains.
  set (k := lower key) in *.
  assert (existsb (named k) h = true) as ->.
  { destruct (existsb (named k) h) eqn:Hex; [reflexivity|].
    rewrite (filter_absent _ _ Hex) in Hone. discriminate. }
  induction h as [|kv h IH]; [discriminate|].
  cbn [List.filter replace_first] in *.
  destruct (named k kv) eqn:Hn.
  - injection Hone as -> Hrest. f_equal.
    clear -Hrest. induction h as [|kv h IH]; [reflexivity|].
    cbn [List.filter] in *.
    destruct (named k kv); [discriminate|].
    cbn [negb]. f_equal. apply IH, Hrest.
  - f_equal. apply IH, Hone.
Qed.

Lemma secure_headers_server h :
  List.filter (named "server") (secure_headers h) = [].
Proof.
  unfold secure_headers. cbv zeta.
  set (h1 := foldl _ h security_headers).
  unfold header_contains.
  change (lower "server") with "server".
  destruct (existsb (named "server") h1) eqn:Hex.
  - unfold header_del. change (lower "server") with "server".
    apply filter_named_out.
  - apply filter_absent, Hex.
Qed.

Lemma secure_headers_entries k h :
  k <> "server" ->
  List.filter (named k) (secure_headers h)
  = match List.find (fun kv => String.eqb (lower kv.1) k) security_headers with
    | Some kv => [(k, kv.2)]
    | None => List.filter (named k) h
    end.
Proof.
  intros Hserver. unfold secure_headers. cbv zeta.
  set (h1 := foldl _ h security_headers).
  assert (List.filter (named k) h1
          = match List.find (fun kv => String.eqb (lower kv.1) k)
                    security_headers with
            | Some kv => [(k, kv.2)]
            | None => List.filter (named k) h
            end) as Hh1.
  { subst h1. unfold security_headers. cbn [foldl fst snd List.find].
    repeat match goal with
    | |- context [String.eqb (lower ?key) k] =>
        destruct (String.eqb_spec (lower key) k) as [<-|?]
    end;
    repeat first
      [ rewrite header_set_entries; reflexivity
      | rewrite header_set_others
          by first [congruence | vm_compute; discriminate] ];
    reflexivity. }
  destruct (header_contains "server" h1); [|exact Hh1].
  unfold header_del. change (lower "server") with "server".
  rewrite filter_named_keep by assumption. exact Hh1.
Qed.

Lemma filter_none_keep k (h : raw_headers) :
  List.filter (named k) h = [] ->
  List.filter (fun kv => negb (named k kv)) h = h.
Proof.
  induction h as [|kv h IH]; [reflexivity|]. cbn [List.filter].
  destruct (named k kv); [discriminate|]. cbn [negb].
  intros Hnone. f_equal. apply IH, Hnone.
Qed.

Lemma member_security_headers key value :
  (key, value) ∈ security_headers ->
  lower key <> "server"
  /\ List.find (fun kv => String.eqb (lower kv.1) (lower key)) security_headers
     = Some (key, value).
Proof.
  unfold security_headers. rewrite !elem_of_cons, elem_of_nil.
  intros [H|[H|[H|[H|[H|[H|[]]]]]]]; injection H as -> ->;
    (split; [discriminate | reflexivity]).
Qed.

Lemma not_managed k :
  k ∉ managed_headers ->
  k <> "server"
  /\ List.find (fun kv => String.eqb (lower kv.1) k) security_headers = None.
Proof.
  unfold managed_headers, security_headers.
  cbn [map app fst List.find]. rewrite !not_elem_of_cons.
  intros (H1 & H2 & H3 & H4 & H5 & H6 & H7 & _).
  split; [assumption|].
  repeat match goal with
  | |- context [String.eqb (lower ?key) k] =>
      destruct (String.eqb_spec (lower key) k) as [Heq|_];
      [congruence|]
  end.
  reflexivity.
Qed.

(** X16.  [SecurityMiddleware.dispatch] passes an exception of the inner
    application on as it is.  On a response it leaves the status and the
    body alone; each of the six security headers is then present exactly
    once, with the fixed value, whatever the application had set under
    that name; no [server] header is left; and the values under every
    other header name are as the application set them, in the same
    order. *)
Theorem security_dispatch_headers {Request : Type}
    (call_next : Request -> result Response) (request : Request) :
  match call_next request with
  | Raise e => SecurityMiddleware_dispatch call_next request = Raise e
  | Ok response =>
      exists response',
        SecurityMiddleware_dispatch call_next request = Ok response'
        /\ status_code response' = status_code response
        /\ body response' = body response
        /\ (forall key value, (key, value) ∈ security_headers ->
            header_values (lower key) (headers response') = [value])
        /\ header_values "server" (headers response') = []
        /\ (forall k, k ∉ managed_headers ->
            header_values k (headers response')
            = header_values k (headers response))
  end.
Proof.
  unfold SecurityMiddleware_dispatch.
  destruct (call_next request) as [response|e]; [|reflexivity].
  eexists. split; [reflexivity|]. cbn [status_code body headers].
  split; [reflexivity|]. split; [reflexivity|]. split; [|split].
  - intros key value Hin.
    destruct (member_security_headers key value Hin) as [Hne Hfind].
    unfold header_values. rewrite secure_headers_entries by assumption.
    rewrite Hfind. reflexivity.
  - unfold header_values. rewrite secure_headers_server. reflexivity.
  - intros k Hk. destruct (not_managed k Hk) as [Hne Hfind].
    unfold header_values. rewrite secure_headers_entries by assumption.
    rewrite Hfind. reflexivity.
Qed.

(** X17.  Passing a response through the security middleware a second
    time changes nothing: the headers after two passes are those after
    one. *)
Theorem secure_headers_idempotent (h : raw_headers) :
  secure_headers (secure_headers h) = secure_headers h.
Proof.
  set (h1 := secure_headers h).
  assert (forall key value, (key, value) ∈ security_headers ->
          List.filter (named (lower key)) h1 = [(lower key, value)]) as Hone.
  { intros key value Hin.
    destruct (member_security_headers key value Hin) as [Hne Hfind].
    subst h1. rewrite secure_headers_entries by assumption.
    rewrite Hfind. reflexivity. }
  assert (List.filter (named "server") h1 = []) as Hserver
    by apply secure_headers_server.
  unfold secure_headers at 1. cbv zeta.
  assert (foldl (fun h kv => header_set kv.1 kv.2 h) h1 security_headers = h1)
    as ->.
  { unfold security_headers in *. cbn [foldl fst snd].
    repeat match goal with
    | |- context [header_set ?k ?v h1] =>
        rewrite (header_set_same k v h1)
          by (apply Hone; rewrite !elem_of_cons; auto 10)
    end.
    reflexivity. }
  destruct (header_contains "server" h1); [|reflexivity].
  unfold header_del. change (lower "server") with "server".
  apply filter_none_keep, Hserver.
Qed.

(** *** The compression test *)

Lemma append_cons c (s t : string) : String c s +:+ t = String c (s +:+ t).
Proof. reflexivity. Qed.

Lemma append_nil_r (s : string) : s +:+ "" = s.
Proof.
  induction s as [|c s IH]; [reflexivity|]. rewrite append_cons, IH.
  reflexivity.
Qed.

Lemma append_assoc (s t u : string) : (s +:+ t) +:+ u = s +:+ t +:+ u.
Proof.
  induction s as [|c s IH]; [reflexivity|]. rewrite !append_cons, IH.
  reflexivity.
Qed.

(** [before]: the text is the part before the separator, then nothing or
    the separator and a rest. *)
Lemma before_split sep s :
  exists tail, s = before sep s +:+ tail
               /\ (tail = "" \/ exists rest, tail = String sep rest).
Proof.
  induction s as [|c s (tail & IH & Htail)].
  - exists "". split; [reflexivity | left; reflexivity].
  - cbn [before]. destruct (Ascii.eqb_spec c sep) as [->|Hne].
    + exists (String sep s). split; [reflexivity | right; eauto].
    + exists tail. rewrite append_cons, <- IH. split; [reflexivity | exact Htail].
Qed.

Lemma before_app sep u s :
  has_char sep u = false -> before sep (u +:+ s) = u +:+ before sep s.
Proof.
  induction u as [|c u IH]; [reflexivity|]. cbn [has_char].
  intros [Hc Hu]%orb_false_elim. rewrite !append_cons. cbn [before].
  rewrite Hc, IH by assumption. reflexivity.
Qed.

Lemma has_char_app c (s t : string) :
  has_char c (s +:+ t) = has_char c s || has_char c t.
Proof.
  induction s as [|c' s IH]; [reflexivity|]. rewrite append_cons.
  cbn [has_char]. rewrite IH, orb_assoc. reflexivity.
Qed.

Lemma all_space_no_semicolon w :
  all_space w = true -> has_char ";" w = false.
Proof.
  induction w as [|c w IH]; [reflexivity|]. cbn [all_space has_char].
  intros [Hc Hw]%andb_prop. rewrite (IH Hw), orb_false_r.
  destruct (Ascii.eqb_spec c ";") as [->|]; [discriminate Hc | reflexivity].
Qed.

Lemma lstrip_app w s : all_space w = true -> lstrip (w +:+ s) = lstrip s.
Proof.
  induction w as [|c w IH]; [reflexivity|]. cbn [all_space].
  intros [Hc Hw]%andb_prop. rewrite append_cons. cbn [lstrip].
  rewrite Hc. apply IH, Hw.
Qed.

Lemma rstrip_space w : all_space w = true -> rstrip w = "".
Proof.
  induction w as [|c w IH]; [reflexivity|]. cbn [all_space rstrip].
  intros [Hc Hw]%andb_prop. rewrite (IH Hw), Hc. reflexivity.
Qed.

Lemma rstrip_app t w : all_space w = true -> rstrip (t +:+ w) = rstrip t.
Proof.
  intros Hw. induction t as [|c t IH]; [apply rstrip_space, Hw|].
  rewrite append_cons. cbn [rstrip]. rewrite IH. reflexivity.
Qed.

(** What [strip] removes is white space. *)
Lemma lstrip_split s :
  exists w, s = w +:+ lstrip s /\ all_space w = true.
Proof.
  induction s as [|c s (w & IH & Hw)]; [exists ""; split; reflexivity|].
  cbn [lstrip]. destruct (isspace c) eqn:Hc.
  - exists (String c w). rewrite append_cons, <- IH.
    cbn [all_space]. rewrite Hc, Hw. split; reflexivity.
  - exists "". split; reflexivity.
Qed.

Lemma rstrip_split s :
  exists w, s = rstrip s +:+ w /\ all_space w = true.
Proof.
  induction s as [|c s (w & IH & Hw)]; [exists ""; split; reflexivity|].
  cbn [rstrip]. destruct (rstrip s) as [|c' r] eqn:Hr.
  - destruct (isspace c) eqn:Hc.
    + exists (String c w). cbn [all_space]. rewrite Hc, Hw.
      split; [|reflexivity]. rewrite IH. reflexivity.
    + exists w. split; [|exact Hw]. rewrite IH at 1. reflexivity.
  - exists w. split; [|exact Hw]. rewrite IH at 1. reflexivity.
Qed.

Lemma strip_split s :
  exists w1 w2, s = w1 +:+ strip s +:+ w2
                /\ all_space w1 = true /\ all_space w2 = true.
Proof.
  destruct (lstrip_split s) as (w1 & H1 & Hw1).
  destruct (rstrip_split (lstrip s)) as (w2 & H2 & Hw2).
  exists w1, w2. unfold strip. rewrite <- H2. auto.
Qed.

(** The media types of the list stand for themselves: none contains a
    semicolon, none starts or ends with white space. *)
Lemma compressible_type_shape t w2 :
  t ∈ compressible_types ->
  has_char ";" t = false /\ rstrip t = t
  /\ lstrip (t +:+ w2) = t +:+ w2.
Proof.
  unfold compressible_types. rewrite !elem_of_cons, elem_of_nil.
  intros H.
  repeat (destruct H as [->|H]; [repeat split|]). destruct H.
Qed.

(** X18.  [_should_compress] answers [True] exactly for a response that
    has no (or an empty) [content-encoding] and whose [content-type] is
    one of the eleven listed media types, written exactly so, possibly
    with white space around it, and possibly followed by a semicolon and
    anything: parameters such as a charset are ignored, an already encoded
    response is never compressed again. *)
Theorem should_compress_spec (response : Response) :
  should_compress response = true <->
  header_get "content-encoding" "" (headers response) = ""
  /\ exists w1 t w2 tail,
       header_get "content-type" "" (headers response)
       = w1 +:+ t +:+ w2 +:+ tail
       /\ all_space w1 = true /\ all_space w2 = true
       /\ t ∈ compressible_types
       /\ (tail = "" \/ exists rest, tail = String ";" rest).
Proof.
  unfold should_compress.
  set (enc := header_get "content-encoding" "" (headers response)).
  set (ct := header_get "content-type" "" (headers response)).
  destruct (String.eqb_spec enc "") as [Henc|Henc]; cbn [negb].
  2: { split; [discriminate | intros [Heq _]; contradiction]. }
  rewrite bool_decide_eq_true. split.
  - intros Hin. split; [exact Henc|].
    destruct (before_split ";" ct) as (tail & Hct & Htail).
    destruct (strip_split (before ";" ct)) as (w1 & w2 & Hu & Hw1 & Hw2).
    exists w1, (strip (before ";" ct)), w2, tail.
    split; [|auto]. rewrite Hct at 1. rewrite Hu at 1.
    rewrite !append_assoc. reflexivity.
  - intros (_ & w1 & t & w2 & tail & Hct & Hw1 & Hw2 & Hin & Htail).
    destruct (compressible_type_shape t w2 Hin) as (Hsemi & Hr & Hl).
    assert (before ";" ct = w1 +:+ t +:+ w2) as ->.
    { rewrite Hct, <- !append_assoc, before_app.
      - destruct Htail as [->|[rest ->]]; cbn [before];
          rewrite ?Ascii.eqb_refl; apply append_nil_r.
      - rewrite !has_char_app, Hsemi, !all_space_no_semicolon by assumption.
        reflexivity. }
    unfold strip. rewrite lstrip_app by assumption.
    rewrite Hl, rstrip_app by assumption. rewrite Hr. exact Hin.
Qed.

End MiddlewareFacts.
